(** * StreamActions [Diff/Hash.py]: a shallow embedding and its properties

    The script reads a text file, feeds its lines to a SHA3-256 accumulator
    and prints (or returns) the hexadecimal digest, with [nocontent] (or
    [None]) standing for an empty, missing or unreadable file.

    The embedding follows the script statement by statement.  What the script
    takes from the Python runtime is modelled next to it:
    - [Keccak]: SHA3-256 as [hashlib.sha3_256] computes it (FIPS 202);
    - [Utf8]: the strict UTF-8 codec;
    - [TextIO]: [open] in text mode and [readlines], with universal newlines;
    - [Argparse]: [ArgumentParser.parse_known_args] of CPython 3.11. *)

From Stdlib Require Import ZArith NArith List Bool Lia.
From Stdlib.Strings Require Import String Ascii Byte.
Import ListNotations.

Local Open Scope Z_scope.

(** ** SHA3-256 *)

Module Keccak.

(** A lane is a 64-bit word, kept in [0, 2^64). *)
Definition lane_mask : Z := 0xFFFFFFFFFFFFFFFF.

Definition rotl64 (x : Z) (n : Z) : Z :=
  Z.lor (Z.land (Z.shiftl x n) lane_mask) (Z.shiftr x (64 - n)).

(** The state is the 5x5 array of lanes, lane (x, y) at index x + 5y. *)
Definition lane (A : list Z) (i : nat) : Z := nth i A 0.

Definition indices : list nat := seq 0 25.

Definition theta (A : list Z) : list Z :=
  let C := fun x =>
    Z.lxor (lane A x)
      (Z.lxor (lane A (x + 5))
         (Z.lxor (lane A (x + 10))
            (Z.lxor (lane A (x + 15)) (lane A (x + 20))))) in
  let D := fun x =>
    Z.lxor (C ((x + 4) mod 5)%nat) (rotl64 (C ((x + 1) mod 5)%nat) 1) in
  map (fun i => Z.lxor (lane A i) (D (i mod 5)%nat)) indices.

Definition rotation_offsets : list Z :=
  [ 0;  1; 62; 28; 27;
   36; 44;  6; 55; 20;
    3; 10; 43; 25; 39;
   41; 45; 15; 21;  8;
   18;  2; 61; 56; 14].

(** rho and pi together: B[y, 2x+3y] = rot(A[x, y], r[x, y]); read from the
    side of the destination (X, Y), the source is x = X + 3Y, y = X. *)
Definition rho_pi (A : list Z) : list Z :=
  map (fun i =>
         let X := (i mod 5)%nat in
         let Y := (i / 5)%nat in
         let src := (((X + 3 * Y) mod 5) + 5 * X)%nat in
         rotl64 (lane A src) (nth src rotation_offsets 0))
      indices.

Definition chi (B : list Z) : list Z :=
  map (fun i =>
         let x := (i mod 5)%nat in
         let row := (5 * (i / 5))%nat in
         Z.lxor (lane B i)
           (Z.land (Z.lxor (lane B (((x + 1) mod 5) + row)) lane_mask)
                   (lane B (((x + 2) mod 5) + row))))
      indices.

Definition iota (rc : Z) (A : list Z) : list Z :=
  match A with
  | [] => []
  | a :: rest => Z.lxor a rc :: rest
  end.

Definition round_constants : list Z :=
  [0x0000000000000001; 0x0000000000008082; 0x800000000000808A;
   0x8000000080008000; 0x000000000000808B; 0x0000000080000001;
   0x8000000080008081; 0x8000000000008009; 0x000000000000008A;
   0x0000000000000088; 0x0000000080008009; 0x000000008000000A;
   0x000000008000808B; 0x800000000000008B; 0x8000000000008089;
   0x8000000000008003; 0x8000000000008002; 0x8000000000000080;
   0x000000000000800A; 0x800000008000000A; 0x8000000080008081;
   0x8000000000008080; 0x0000000080000001; 0x8000000080008008].

Definition round (A : list Z) (rc : Z) : list Z :=
  iota rc (chi (rho_pi (theta A))).

Definition keccak_f (A : list Z) : list Z :=
  fold_left round round_constants A.

(** Rate of SHA3-256 in bytes: (1600 - 2 * 256) / 8. *)
Definition rate : nat := 136.

Definition byte_val (b : byte) : Z := Z.of_N (Byte.to_N b).

(** Little-endian value of at most eight bytes. *)
Fixpoint le_word (bs : list byte) : Z :=
  match bs with
  | [] => 0
  | b :: rest => Z.lor (byte_val b) (Z.shiftl (le_word rest) 8)
  end.

(** The lanes of a block of [rate] bytes. *)
Fixpoint block_lanes (n : nat) (bs : list byte) : list Z :=
  match n with
  | O => []
  | S n' => le_word (firstn 8 bs) :: block_lanes n' (skipn 8 bs)
  end.

Fixpoint xor_lanes (A B : list Z) : list Z :=
  match A, B with
  | a :: A', b :: B' => Z.lxor a b :: xor_lanes A' B'
  | _, [] => A
  | [], _ => []
  end.

Definition absorb (A : list Z) (block : list byte) : list Z :=
  keccak_f (xor_lanes A (block_lanes 17 block)).

(** The hash object: the sponge state and the bytes of the current,
    still incomplete block. *)
Record sha3 : Type := { lanes : list Z; pending : list byte }.

Definition sha3_256 : sha3 := {| lanes := repeat 0 25; pending := [] |}.

Definition update_byte (h : sha3) (b : byte) : sha3 :=
  let p := (pending h ++ [b])%list in
  if Nat.eqb (List.length p) rate
  then {| lanes := absorb (lanes h) p; pending := [] |}
  else {| lanes := lanes h; pending := p |}.

Definition update (h : sha3) (data : list byte) : sha3 :=
  fold_left update_byte data h.

Definition byte_of_Z (z : Z) : byte :=
  match Byte.of_N (Z.to_N (Z.land z 0xFF)) with
  | Some b => b
  | None => x00
  end.

(** SHA3 padding: domain bits 01, then pad10*1, on a block of fewer than
    [rate] bytes. *)
Definition pad (p : list byte) : list byte :=
  let k := (rate - List.length p)%nat in
  match k with
  | O => p
  | 1%nat => (p ++ [x86])%list
  | S (S j) => (p ++ x06 :: repeat x00 j ++ [x80])%list
  end.

(** The i-th byte of the output, taken from the lanes little-endian. *)
Definition output_byte (A : list Z) (i : nat) : byte :=
  byte_of_Z (Z.shiftr (lane A (i / 8)) (8 * Z.of_nat (i mod 8))).

Definition digest (h : sha3) : list byte :=
  let A := absorb (lanes h) (pad (pending h)) in
  map (output_byte A) (seq 0 32).

Definition hex_digit (n : N) : ascii :=
  if (n <? 10)%N then ascii_of_N (48 + n) else ascii_of_N (87 + n).

Fixpoint hex (bs : list byte) : string :=
  match bs with
  | [] => EmptyString
  | b :: rest =>
      let n := Byte.to_N b in
      String (hex_digit (n / 16)) (String (hex_digit (n mod 16)) (hex rest))
  end.

Definition hexdigest (h : sha3) : string := hex (digest h).

End Keccak.

(** ** The UTF-8 codec *)

Module Utf8.

Local Open Scope N_scope.

(** A Python [str] read from a file: a sequence of code points. *)
Definition text : Type := list N.

Definition byte_of_N (n : N) : byte :=
  match Byte.of_N n with
  | Some b => b
  | None => x00
  end.

Definition in_range (lo hi n : N) : bool := (lo <=? n) && (n <=? hi).

Definition is_surrogate (c : N) : bool := in_range 0xD800 0xDFFF c.

(** [str.encode('utf-8')] on one code point; a lone surrogate cannot be
    encoded (UnicodeEncodeError).  No [str] holds a code point above
    0x10FFFF. *)
Definition encode_char (c : N) : option (list byte) :=
  if c <? 0x80 then Some [byte_of_N c]
  else if c <? 0x800 then
    Some [byte_of_N (0xC0 + c / 64); byte_of_N (0x80 + c mod 64)]
  else if c <? 0x10000 then
    if is_surrogate c then None
    else Some [byte_of_N (0xE0 + c / 4096);
               byte_of_N (0x80 + (c / 64) mod 64);
               byte_of_N (0x80 + c mod 64)]
  else if c <? 0x110000 then
    Some [byte_of_N (0xF0 + c / 262144);
          byte_of_N (0x80 + (c / 4096) mod 64);
          byte_of_N (0x80 + (c / 64) mod 64);
          byte_of_N (0x80 + c mod 64)]
  else None.

Fixpoint encode (s : text) : option (list byte) :=
  match s with
  | [] => Some []
  | c :: rest =>
      match encode_char c, encode rest with
      | Some b, Some bs => Some (b ++ bs)%list
      | _, _ => None
      end
  end.

Definition continuation (n : N) : bool := in_range 0x80 0xBF n.

(** Bounds of the second byte after the lead byte [n0]: they exclude the
    overlong forms, the surrogates and what lies above 0x10FFFF. *)
Definition second_lo (n0 : N) : N :=
  if n0 =? 0xE0 then 0xA0 else if n0 =? 0xF0 then 0x90 else 0x80.

Definition second_hi (n0 : N) : N :=
  if n0 =? 0xED then 0x9F else if n0 =? 0xF4 then 0x8F else 0xBF.

(** [bytes.decode('utf-8')], strict: [None] is UnicodeDecodeError. *)
Fixpoint decode (bs : list byte) : option text :=
  match bs with
  | [] => Some []
  | b0 :: r0 =>
      let n0 := Byte.to_N b0 in
      if n0 <? 0x80 then option_map (cons n0) (decode r0)
      else if in_range 0xC2 0xDF n0 then
        match r0 with
        | b1 :: r1 =>
            let n1 := Byte.to_N b1 in
            if continuation n1
            then option_map (cons ((n0 - 0xC0) * 64 + (n1 - 0x80)))
                            (decode r1)
            else None
        | _ => None
        end
      else if in_range 0xE0 0xEF n0 then
        match r0 with
        | b1 :: b2 :: r2 =>
            let n1 := Byte.to_N b1 in
            let n2 := Byte.to_N b2 in
            if in_range (second_lo n0) (second_hi n0) n1 && continuation n2
            then option_map
                   (cons ((n0 - 0xE0) * 4096 + (n1 - 0x80) * 64
                          + (n2 - 0x80)))
                   (decode r2)
            else None
        | _ => None
        end
      else if in_range 0xF0 0xF4 n0 then
        match r0 with
        | b1 :: b2 :: b3 :: r3 =>
            let n1 := Byte.to_N b1 in
            let n2 := Byte.to_N b2 in
            let n3 := Byte.to_N b3 in
            if in_range (second_lo n0) (second_hi n0) n1
               && continuation n2 && continuation n3
            then option_map
                   (cons ((n0 - 0xF0) * 262144 + (n1 - 0x80) * 4096
                          + (n2 - 0x80) * 64 + (n3 - 0x80)))
                   (decode r3)
            else None
        | _ => None
        end
      else None
  end.

End Utf8.

(** ** Exceptions, standard output and the file system *)

Inductive exn : Type :=
| FileNotFoundError
| PermissionError
| IsADirectoryError
| UnicodeDecodeError
| UnicodeEncodeError
| TypeError
| AttributeError
| SystemExit (code : Z).

Inductive result (A : Type) : Type :=
| Returned (a : A)
| Raised (e : exn).

Arguments Returned {A} a.
Arguments Raised {A} e.

(** A computation runs on the text written to standard output so far and
    ends by returning or raising, with the text written by then. *)
Definition M (A : Type) : Type := string -> result A * string.

Definition ret {A} (a : A) : M A := fun out => (Returned a, out).

Definition raise {A} (e : exn) : M A := fun out => (Raised e, out).

Definition bind {A B} (m : M A) (k : A -> M B) : M B :=
  fun out =>
    match m out with
    | (Returned a, out') => k a out'
    | (Raised e, out') => (Raised e, out')
    end.

(** [try: m except: handler]: a bare [except] catches every exception. *)
Definition try_except {A} (m : M A) (handler : exn -> M A) : M A :=
  fun out =>
    match m out with
    | (Returned a, out') => (Returned a, out')
    | (Raised e, out') => handler e out'
    end.

(** A result computed without writing. *)
Definition lift {A} (r : result A) : M A := fun out => (r, out).

Declare Scope monad_scope.
Delimit Scope monad_scope with monad.
Notation "x <- c1 ;; c2" := (bind c1 (fun x => c2))
  (at level 61, c1 at next level, right associativity) : monad_scope.
Notation "c1 ;; c2" := (bind c1 (fun _ => c2))
  (at level 61, right associativity) : monad_scope.

Definition newline : string := String (ascii_of_N 10) EmptyString.

(** [print(s)] *)
Definition print (s : string) : M unit :=
  fun out => (Returned tt, (out ++ s ++ newline)%string).

(** [for x in xs: body], threading the loop's variables as [acc]. *)
Fixpoint for_each {A B} (xs : list A) (acc : B) (body : B -> A -> M B) : M B :=
  match xs with
  | [] => ret acc
  | x :: rest => bind (body acc x) (fun acc' => for_each rest acc' body)
  end.

(** The values an attribute of the argument namespace takes. *)
Inductive pyval : Type :=
| PyNone
| PyStr (s : string)
| PyList (l : list string).

Definition Namespace : Type := list (string * pyval).

Fixpoint lookup {V} (name : string) (l : list (string * V)) : option V :=
  match l with
  | [] => None
  | (k, v) :: rest => if String.eqb k name then Some v else lookup name rest
  end.

Definition getattr (ns : Namespace) (name : string) : M pyval :=
  match lookup name ns with
  | Some v => ret v
  | None => raise AttributeError
  end.

Fixpoint setattr (ns : Namespace) (name : string) (v : pyval) : Namespace :=
  match ns with
  | [] => [(name, v)]
  | (k, w) :: rest =>
      if String.eqb k name then (k, v) :: rest else (k, w) :: setattr rest name v
  end.

Module TextIO.

Inductive node : Type :=
| Missing
| Denied
| Directory
| Regular (content : list byte).

Definition filesystem : Type := string -> node.

(** A file opened for reading as text. *)
Record TextIOWrapper : Type := { raw : list byte }.

(** [open(file, encoding='utf-8')] *)
Definition open (fs : filesystem) (file : pyval) : M TextIOWrapper :=
  match file with
  | PyStr path =>
      match fs path with
      | Missing => raise FileNotFoundError
      | Denied => raise PermissionError
      | Directory => raise IsADirectoryError
      | Regular content => ret {| raw := content |}
      end
  | _ => raise TypeError
  end.

Definition LF : N := 10.
Definition CR : N := 13.

(** Universal newlines, the default of [open]: on reading, "\r\n" and a
    lone "\r" become "\n". *)
Fixpoint translate_newlines (s : Utf8.text) : Utf8.text :=
  match s with
  | [] => []
  | c :: rest =>
      if N.eqb c CR then
        LF :: match rest with
              | [] => []
              | d :: rest' =>
                  if N.eqb d LF then translate_newlines rest'
                  else translate_newlines rest
              end
      else c :: translate_newlines rest
  end.

(** The lines of [s], each with its "\n"; [cur] is the line begun. *)
Fixpoint split_lines (cur : Utf8.text) (s : Utf8.text) : list Utf8.text :=
  match s with
  | [] => match cur with [] => [] | _ => [cur] end
  | c :: rest =>
      if N.eqb c LF then (cur ++ [c]) :: split_lines [] rest
      else split_lines (cur ++ [c]) rest
  end.

(** [f.readlines()] *)
Definition readlines (f : TextIOWrapper) : M (list Utf8.text) :=
  match Utf8.decode (raw f) with
  | None => raise UnicodeDecodeError
  | Some s => ret (split_lines [] (translate_newlines s))
  end.

End TextIO.

(** [line.encode(encoding='utf-8')] *)
Definition str_encode (line : Utf8.text) : M (list byte) :=
  match Utf8.encode line with
  | Some data => ret data
  | None => raise UnicodeEncodeError
  end.

(** ** The script *)

Local Open Scope monad_scope.
Local Open Scope string_scope.

Definition option_string_eqb (a b : option string) : bool :=
  match a, b with
  | None, None => true
  | Some x, Some y => String.eqb x y
  | _, _ => false
  end.

(** [str(v)] for a value that is [None] or a string. *)
Definition str_of (v : option string) : string :=
  match v with
  | Some s => s
  | None => "None"
  end.

Definition hash (fs : TextIO.filesystem) (args : Namespace)
    (shouldReturn : bool) : M (option string) :=
  lines <- try_except
             (file <- getattr args "file" ;;
              f <- TextIO.open fs file ;;
              TextIO.readlines f)
             (fun _ => ret []) ;;
  digest <- try_except
              (h <- ret Keccak.sha3_256 ;;
               h <- for_each lines h
                      (fun h line =>
                         data <- str_encode line ;;
                         ret (Keccak.update h data)) ;;
               ret (Some (Keccak.hexdigest h)))
              (fun _ => ret None) ;;
  if Nat.eqb (List.length lines) 0
     || option_string_eqb digest None
     || option_string_eqb digest
          (Some "a7ffc6f8bf1ed76651c14756a061d662f580ff4de43b49fa82d80a4b80f8434a")
  then
    if shouldReturn then ret None
    else (print "nocontent" ;; ret None)
  else
    if shouldReturn then ret digest
    else (print (str_of digest) ;; ret None).

(** *** The blocks of [hash], named

    [hash] is the sequence of its two [try] statements and of its final
    [if]; the lemma [hash_blocks] below says so. *)

(** The body of the first [try]. *)
Definition open_and_read (fs : TextIO.filesystem) (args : Namespace)
    : M (list Utf8.text) :=
  file <- getattr args "file" ;;
  f <- TextIO.open fs file ;;
  TextIO.readlines f.

(** The first [try] statement: the value of [lines]. *)
Definition read_lines (fs : TextIO.filesystem) (args : Namespace)
    : M (list Utf8.text) :=
  try_except (open_and_read fs args) (fun _ => ret []).

(** The body of the second [try]. *)
Definition feed_lines (lines : list Utf8.text) : M (option string) :=
  h <- ret Keccak.sha3_256 ;;
  h <- for_each lines h
         (fun h line =>
            data <- str_encode line ;;
            ret (Keccak.update h data)) ;;
  ret (Some (Keccak.hexdigest h)).

(** The second [try] statement: the value of [digest]. *)
Definition hash_lines (lines : list Utf8.text) : M (option string) :=
  try_except (feed_lines lines) (fun _ => ret None).

Definition empty_digest : string :=
  "a7ffc6f8bf1ed76651c14756a061d662f580ff4de43b49fa82d80a4b80f8434a".

(** The test of the final [if]. *)
Definition no_content (lines : list Utf8.text) (digest : option string)
    : bool :=
  Nat.eqb (List.length lines) 0
  || option_string_eqb digest None
  || option_string_eqb digest (Some empty_digest).

(** What the caller observes of the "no content" branch, from the standard
    output [out]: the value returned and the standard output. *)
Definition no_content_outcome (shouldReturn : bool) (out : string)
    : result (option string) * string :=
  (Returned None,
   if shouldReturn then out else (out ++ "nocontent" ++ newline)%string).

(** What the caller observes of the other branch, for the digest [d]. *)
Definition digest_outcome (d : string) (shouldReturn : bool) (out : string)
    : result (option string) * string :=
  if shouldReturn then (Returned (Some d), out)
  else (Returned None, (out ++ d ++ newline)%string).

(** SHA3-256 of a byte string in one piece, in hexadecimal. *)
Definition sha3_256_hex (data : list byte) : string :=
  Keccak.hexdigest (Keccak.update Keccak.sha3_256 data).

(** The final [if]. *)
Definition report (lines : list Utf8.text) (digest : option string)
    (shouldReturn : bool) : M (option string) :=
  if no_content lines digest
  then
    if shouldReturn then ret None
    else (print "nocontent" ;; ret None)
  else
    if shouldReturn then ret digest
    else (print (str_of digest) ;; ret None).

(** The value [lines] has after the first [try] statement. *)
Definition lines_of (fs : TextIO.filesystem) (args : Namespace)
    : list Utf8.text :=
  match lookup "file" args with
  | Some (PyStr path) =>
      match fs path with
      | TextIO.Regular content =>
          match Utf8.decode content with
          | Some s => TextIO.split_lines [] (TextIO.translate_newlines s)
          | None => []
          end
      | _ => []
      end
  | _ => []
  end.

(** The value [digest] has after the second [try] statement. *)
Definition digest_of (lines : list Utf8.text) : option string :=
  match Utf8.encode (List.concat lines) with
  | Some data => Some (sha3_256_hex data)
  | None => None
  end.

Definition is_lower_hex (c : ascii) : bool :=
  let n := N_of_ascii c in
  (((48 <=? n) && (n <=? 57)) || ((97 <=? n) && (n <=? 102)))%N.

Fixpoint string_forallb (f : ascii -> bool) (s : string) : bool :=
  match s with
  | EmptyString => true
  | String c rest => f c && string_forallb f rest
  end.

Definition no_newline (s : string) : Prop :=
  string_forallb (fun c => negb (Ascii.eqb c (ascii_of_N 10))) s = true.

Definition is_nil {X : Type} (l : list X) : bool :=
  match l with
  | [] => true
  | _ :: _ => false
  end.

(** A digest as printed: 64 lowercase hexadecimal digits. *)
Definition is_hex_digest (s : string) : Prop :=
  String.length s = 64%nat /\ string_forallb is_lower_hex s = true.

Fixpoint bytes_of_string (s : string) : list byte :=
  match s with
  | EmptyString => []
  | String c rest => byte_of_ascii c :: bytes_of_string rest
  end.

(** A namespace as [parseargs] returns it for [-file path]. *)
Definition file_args (path : string) : Namespace := [("file", PyStr path)].

(** A file system with one regular file. *)
Definition one_file (path : string) (content : list byte)
    : TextIO.filesystem :=
  fun p => if String.eqb p path then TextIO.Regular content
           else TextIO.Missing.

(** ** Command-line parsing

    [argparse] as CPython 3.11 has it, for parsers made of the help option
    and of options that store one value: no positional argument, no group,
    prefix character [-], abbreviations allowed, [exit_on_error] set.  What
    argparse writes to standard error is left out. *)

Module Argparse.

Inductive Action : Type :=
| HelpAction                                    (* nargs = 0 *)
| StoreAction (dest : string) (required : bool) (* nargs = None *).

Definition action_eqb (a b : Action) : bool :=
  match a, b with
  | HelpAction, HelpAction => true
  | StoreAction d r, StoreAction d' r' => String.eqb d d' && Bool.eqb r r'
  | _, _ => false
  end.

Definition takes_value (a : Action) : bool :=
  match a with
  | HelpAction => false
  | StoreAction _ _ => true
  end.

Definition is_required (a : Action) : bool :=
  match a with
  | HelpAction => false
  | StoreAction _ r => r
  end.

Record ArgumentParser : Type :=
  { actions : list Action;
    option_string_actions : list (string * Action) }.

(** [argparse.ArgumentParser()] *)
Definition new_parser : ArgumentParser :=
  {| actions := [HelpAction];
     option_string_actions := [("-h", HelpAction); ("--help", HelpAction)] |}.

Definition dash : ascii := "-"%char.

Fixpoint lstrip_dashes (s : string) : string :=
  match s with
  | String c rest => if Ascii.eqb c dash then lstrip_dashes rest else s
  | EmptyString => s
  end.

Fixpoint replace_dashes (s : string) : string :=
  match s with
  | String c rest =>
      String (if Ascii.eqb c dash then "_"%char else c) (replace_dashes rest)
  | EmptyString => s
  end.

(** [parser.add_argument(flag, required=...)] for one option string. *)
Definition add_argument (p : ArgumentParser) (flag : string)
    (required : bool) : ArgumentParser :=
  let a := StoreAction (replace_dashes (lstrip_dashes flag)) required in
  {| actions := actions p ++ [a];
     option_string_actions := option_string_actions p ++ [(flag, a)] |}.

Definition is_digit (c : ascii) : bool :=
  let n := N_of_ascii c in ((48 <=? n) && (n <=? 57))%N.

Fixpoint skip_digits (s : string) : string :=
  match s with
  | String c rest => if is_digit c then skip_digits rest else s
  | EmptyString => s
  end.

(** [$]: the end of the string, or just before its final newline. *)
Definition at_end (s : string) : bool :=
  String.eqb s "" || String.eqb s newline.

Definition digits_then_end (s : string) : bool :=
  let r := skip_digits s in
  negb (Nat.eqb (String.length r) (String.length s)) && at_end r.

(** The regular expression [^-\d+$|^-\d*\.\d+$]. *)
Definition negative_number_like (s : string) : bool :=
  match s with
  | String c rest =>
      Ascii.eqb c dash
      && (digits_then_end rest
          || match skip_digits rest with
             | String d frac => Ascii.eqb d "."%char && digits_then_end frac
             | EmptyString => false
             end)
  | EmptyString => false
  end.

Definition has_negative_number_optionals (p : ArgumentParser) : bool :=
  existsb (fun e => negative_number_like (fst e)) (option_string_actions p).

(** [s.split('=', 1)] when [s] has an equals sign. *)
Fixpoint split_eq (s : string) : option (string * string) :=
  match s with
  | EmptyString => None
  | String c rest =>
      if Ascii.eqb c "="%char then Some (EmptyString, rest)
      else match split_eq rest with
           | Some (a, b) => Some (String c a, b)
           | None => None
           end
  end.

Fixpoint contains_space (s : string) : bool :=
  match s with
  | EmptyString => false
  | String c rest => Ascii.eqb c " "%char || contains_space rest
  end.

Definition second_is_dash (s : string) : bool :=
  match s with
  | String _ (String c _) => Ascii.eqb c dash
  | _ => false
  end.

(** action (absent for an unknown option), option string, explicit
    argument *)
Definition option_tuple : Type := (option Action * string * option string).

Definition get_option_tuples (p : ArgumentParser) (arg : string)
    : list option_tuple :=
  if second_is_dash arg then
    let '(option_prefix, explicit_arg) :=
      match split_eq arg with
      | Some (a, b) => (a, Some b)
      | None => (arg, None)
      end in
    flat_map (fun e : string * Action =>
                if String.prefix option_prefix (fst e)
                then [(Some (snd e), fst e, explicit_arg)] else [])
             (option_string_actions p)
  else
    let short_option_prefix := substring 0 2 arg in
    let short_explicit_arg := substring 2 (String.length arg - 2) arg in
    flat_map (fun e : string * Action =>
                if String.eqb (fst e) short_option_prefix
                then [(Some (snd e), fst e, Some short_explicit_arg)]
                else if String.prefix arg (fst e)
                then [(Some (snd e), fst e, None)] else [])
             (option_string_actions p).

(** [parser.error(message)]: usage and message on standard error, then
    exit status 2. *)
Definition error {A} : result A := Raised (SystemExit 2).

(** [None] marks a positional argument.  Nothing is written or read
    here: the result is a value or an exception. *)
Definition parse_optional (p : ArgumentParser) (arg : string)
    : result (option option_tuple) :=
  match arg with
  | EmptyString => Returned None
  | String c _ =>
      if negb (Ascii.eqb c dash) then Returned None
      else
        match lookup arg (option_string_actions p) with
        | Some a => Returned (Some (Some a, arg, None))
        | None =>
            if Nat.eqb (String.length arg) 1 then Returned None
            else
              let with_equals :=
                match split_eq arg with
                | Some (option_string, explicit_arg) =>
                    match lookup option_string (option_string_actions p) with
                    | Some a => Some (Some a, option_string, Some explicit_arg)
                    | None => None
                    end
                | None => None
                end in
              match with_equals with
              | Some t => Returned (Some t)
              | None =>
                  match get_option_tuples p arg with
                  | _ :: _ :: _ => error
                  | [t] => Returned (Some t)
                  | [] =>
                      if negative_number_like arg
                         && negb (has_negative_number_optionals p)
                      then Returned None
                      else if contains_space arg then Returned None
                      else Returned (Some (None, arg, None))
                  end
              end
        end
  end.

(** The letters of [arg_strings_pattern]. *)
Inductive pattern : Type :=
| A
| O (t : option_tuple)
| Dash.

Fixpoint classify (p : ArgumentParser) (arg_strings : list string)
    : result (list (string * pattern)) :=
  match arg_strings with
  | [] => Returned []
  | arg :: rest =>
      if String.eqb arg "--"
      then Returned ((arg, Dash) :: map (fun a => (a, A)) rest)
      else
        match parse_optional p arg with
        | Raised e => Raised e
        | Returned t =>
            match classify p rest with
            | Raised e => Raised e
            | Returned items =>
                Returned
                  ((arg, match t with None => A | Some t => O t end) :: items)
            end
        end
  end.

(** An option without explicit argument matches its pattern against the
    arguments that follow: the result is the argument strings it takes and
    whether the next argument is consumed; [None] is an ArgumentError. *)
Definition match_following (action : Action)
    (rest : list (string * pattern))
    : option (list (Action * list string) * bool) :=
  if takes_value action then
    match rest with
    | (v, A) :: _ => Some ([(action, [v])], true)
    | _ => None
    end
  else Some ([(action, [])], false).

(** An option with an explicit argument: a value for an option that takes
    one; for a single-dash flag, further single-dash flags. *)
Fixpoint match_explicit (p : ArgumentParser) (action : Action)
    (option_string : string) (explicit_arg : string)
    (rest : list (string * pattern)) {struct explicit_arg}
    : option (list (Action * list string) * bool) :=
  if takes_value action then Some ([(action, [explicit_arg])], false)
  else
    match explicit_arg with
    | String c new_explicit_arg =>
        if second_is_dash option_string then None
        else
          let option_string' := String dash (String c EmptyString) in
          match lookup option_string' (option_string_actions p) with
          | Some action' =>
              match
                match new_explicit_arg with
                | EmptyString => match_following action' rest
                | _ => match_explicit p action' option_string'
                         new_explicit_arg rest
                end
              with
              | Some (tuples, consumed) =>
                  Some ((action, []) :: tuples, consumed)
              | None => None
              end
          | None => None
          end
    | EmptyString => None
    end.

Fixpoint remove_first (x : string) (l : list string) : list string :=
  match l with
  | [] => []
  | y :: rest => if String.eqb y x then rest else y :: remove_first x rest
  end.

Definition get_values (action : Action) (arg_strings : list string) : pyval :=
  let arg_strings := remove_first "--" arg_strings in
  match action, arg_strings with
  | StoreAction _ _, [arg_string] => PyStr arg_string
  | _, _ => PyList arg_strings
  end.

Record parse_state : Type :=
  { namespace : Namespace;
    seen_actions : list Action;
    extras : list string }.

Definition write (s : string) : M unit :=
  fun out => (Returned tt, (out ++ s)%string).

Section Parsing.

(** [parser.format_help()]: the text depends on the program's name and
    on the width of the terminal; it is not modelled. *)
Variable format_help : ArgumentParser -> string.

Definition take_action (p : ArgumentParser) (st : parse_state)
    (tuple : Action * list string) : M parse_state :=
  let '(action, argument_strings) := tuple in
  let argument_values := get_values action argument_strings in
  match action with
  | HelpAction =>
      write (format_help p) ;;
      raise (SystemExit 0)
  | StoreAction dest _ =>
      ret {| namespace := setattr (namespace st) dest argument_values;
             seen_actions := action :: seen_actions st;
             extras := extras st |}
  end.

Definition add_extra (st : parse_state) (arg : string) : parse_state :=
  {| namespace := namespace st;
     seen_actions := seen_actions st;
     extras := extras st ++ [arg] |}.

Fixpoint consume (p : ArgumentParser) (items : list (string * pattern))
    (st : parse_state) : M parse_state :=
  match items with
  | [] => ret st
  | (arg, O (Some action, option_string, explicit_arg)) :: rest =>
      match
        match explicit_arg with
        | Some e => match_explicit p action option_string e rest
        | None => match_following action rest
        end
      with
      | None => lift error
      | Some (tuples, consumed) =>
          st' <- for_each tuples st (take_action p) ;;
          match rest with
          | _ :: rest' => if consumed then consume p rest' st'
                          else consume p rest st'
          | [] => ret st'
          end
      end
  | (arg, _) :: rest => consume p rest (add_extra st arg)
  end.

Definition default_namespace (p : ArgumentParser) : Namespace :=
  fold_left (fun ns a =>
               match a with
               | StoreAction dest _ =>
                   match lookup dest ns with
                   | Some _ => ns
                   | None => setattr ns dest PyNone
                   end
               | HelpAction => ns
               end)
            (actions p) [].

(** [parser.parse_known_args(args=args)]; [sys_argv] is [sys.argv]. *)
Definition parse_known_args (p : ArgumentParser) (sys_argv : list string)
    (args : option (list string)) : M (Namespace * list string) :=
  let args := match args with
              | None => List.tl sys_argv
              | Some l => l
              end in
  items <- lift (classify p args) ;;
  st <- consume p items {| namespace := default_namespace p;
                           seen_actions := [];
                           extras := [] |} ;;
  if existsb (fun a => is_required a
                       && negb (existsb (action_eqb a) (seen_actions st)))
             (actions p)
  then lift error
  else ret (namespace st, extras st).

End Parsing.

End Argparse.

Section Program.

Variable format_help : Argparse.ArgumentParser -> string.

Definition parseargs (sys_argv : list string) (inargs : option (list string))
    : M Namespace :=
  let parser := Argparse.new_parser in
  let parser := Argparse.add_argument parser "-file" true in
  r <- Argparse.parse_known_args format_help parser sys_argv inargs ;;
  let '(args, _) := r in
  ret args.

(** The body of [if __name__ == '__main__':]. *)
Definition main (sys_argv : list string) (fs : TextIO.filesystem)
    : M (option string) :=
  args <- parseargs sys_argv None ;;
  hash fs args false.

End Program.

(** The exit status of the interpreter running the program [m]: that of
    [SystemExit] when it is raised, 1 for any other uncaught exception. *)
Definition exit_status {A} (m : M A) : Z :=
  match fst (m "") with
  | Returned _ => 0
  | Raised (SystemExit code) => code
  | Raised _ => 1
  end.

Definition stdout {A} (m : M A) : string := snd (m "").


(** The parser [parseargs] builds. *)
Definition the_parser : Argparse.ArgumentParser :=
  Argparse.add_argument Argparse.new_parser "-file" true.

(** An argument string that is no option of the parser [p]: a positional
    argument, or an option string [p] does not know; the separator [--] is
    set apart. *)
Definition unrecognized (p : Argparse.ArgumentParser) (arg : string) : bool :=
  negb (String.eqb arg "--")
  && match Argparse.parse_optional p arg with
     | Returned None => true
     | Returned (Some (None, _, _)) => true
     | _ => false
     end.

(** An argument string that can be the value of an option. *)
Definition positional (p : Argparse.ArgumentParser) (arg : string) : bool :=
  negb (String.eqb arg "--")
  && match Argparse.parse_optional p arg with
     | Returned None => true
     | _ => false
     end.

(** An item of the pattern that ends in the extras. *)
Definition ignored (item : string * Argparse.pattern) : bool :=
  match snd item with
  | Argparse.O (Some _, _, _) => false
  | _ => true
  end.

(** The bytes [bs] with a carriage return put before every line feed: the
    same file with the line terminators of DOS. *)
Fixpoint unix2dos (bs : list byte) : list byte :=
  match bs with
  | [] => []
  | b :: rest =>
      if Byte.eqb b x0a then x0d :: x0a :: unix2dos rest
      else b :: unix2dos rest
  end.

(** An action with the argument strings it is given: an action that takes
    a value is given exactly one. *)
Definition single_valued (t : Argparse.Action * list string) : Prop :=
  Argparse.takes_value (fst t) = true -> exists v, snd t = [v].

(** What a store action has set: a string, or the empty list. *)
Definition stored_value (v : pyval) : Prop :=
  (exists s, v = PyStr s) \/ v = PyList [].

(** Every store action seen so far has left a value in the namespace. *)
Definition values_kept (st : Argparse.parse_state) : Prop :=
  forall dest req,
    In (Argparse.StoreAction dest req) (Argparse.seen_actions st) ->
    exists v, lookup dest (Argparse.namespace st) = Some v /\ stored_value v.

(** The item of the pattern for the argument string [-file]. *)
Definition file_item : string * Argparse.pattern :=
  ("-file",
   Argparse.O (Some (Argparse.StoreAction "file" true), "-file", None)).

(** * Properties *)

(** ** The UTF-8 codec: what decodes, encodes back to the same bytes *)

Module Utf8Facts.

Import Utf8.
Local Open Scope N_scope.

Ltac Zify.zify_post_hook ::= Z.to_euclidean_division_equations.

Lemma byte_of_to_N (b : byte) : byte_of_N (Byte.to_N b) = b.
Proof. unfold byte_of_N. now rewrite Byte.of_to_N. Qed.

Lemma to_N_lt (b : byte) : Byte.to_N b < 256.
Proof. pose proof (Byte.to_N_bounded b). lia. Qed.

Ltac ranges :=
  unfold continuation, in_range in *;
  repeat match goal with
    | H : _ && _ = true |- _ => apply andb_true_iff in H; destruct H
    | H : (_ <=? _) = true |- _ => apply N.leb_le in H
    | H : (_ <? _) = true |- _ => apply N.ltb_lt in H
    | H : (_ <? _) = false |- _ => apply N.ltb_ge in H
    end.

Ltac lead_cases n0 :=
  unfold second_lo, second_hi in *;
  repeat match goal with
    | H : context [n0 =? ?k] |- _ => destruct (N.eqb_spec n0 k)
    end.

Lemma encode_char_1 (b0 : byte) :
  (Byte.to_N b0 <? 0x80) = true ->
  encode_char (Byte.to_N b0) = Some [b0].
Proof.
  intros H. unfold encode_char. rewrite H. now rewrite byte_of_to_N.
Qed.

Lemma encode_char_2 (b0 b1 : byte) :
  in_range 0xC2 0xDF (Byte.to_N b0) = true ->
  continuation (Byte.to_N b1) = true ->
  encode_char ((Byte.to_N b0 - 0xC0) * 64 + (Byte.to_N b1 - 0x80))
  = Some [b0; b1].
Proof.
  intros H0 H1. ranges.
  set (n0 := Byte.to_N b0) in *. set (n1 := Byte.to_N b1) in *.
  set (c := (n0 - 0xC0) * 64 + (n1 - 0x80)).
  assert (Hc : 0x80 <= c < 0x800) by (subst c; lia).
  unfold encode_char.
  destruct (N.ltb_spec c 0x80); [lia |].
  destruct (N.ltb_spec c 0x800); [| lia].
  replace (0xC0 + c / 64) with n0 by (subst c; lia).
  replace (0x80 + c mod 64) with n1 by (subst c; lia).
  subst n0 n1. now rewrite !byte_of_to_N.
Qed.

Lemma encode_char_3 (b0 b1 b2 : byte) :
  in_range 0xE0 0xEF (Byte.to_N b0) = true ->
  in_range (second_lo (Byte.to_N b0)) (second_hi (Byte.to_N b0))
    (Byte.to_N b1) = true ->
  continuation (Byte.to_N b2) = true ->
  encode_char ((Byte.to_N b0 - 0xE0) * 4096 + (Byte.to_N b1 - 0x80) * 64
               + (Byte.to_N b2 - 0x80))
  = Some [b0; b1; b2].
Proof.
  intros H0 H1 H2. ranges.
  set (n0 := Byte.to_N b0) in *. set (n1 := Byte.to_N b1) in *.
  set (n2 := Byte.to_N b2) in *.
  set (c := (n0 - 0xE0) * 4096 + (n1 - 0x80) * 64 + (n2 - 0x80)).
  assert (Hc : 0x800 <= c < 0x10000 /\ (c < 0xD800 \/ 0xDFFF < c)).
  { subst c. lead_cases n0; lia. }
  assert (Hn1 : 0x80 <= n1 <= 0xBF) by (lead_cases n0; lia).
  unfold encode_char, is_surrogate, in_range.
  destruct (N.ltb_spec c 0x80); [lia |].
  destruct (N.ltb_spec c 0x800); [lia |].
  destruct (N.ltb_spec c 0x10000); [| lia].
  replace ((0xD800 <=? c) && (c <=? 0xDFFF)) with false.
  2:{ symmetry. apply andb_false_iff.
      destruct Hc as [_ [Hc | Hc]];
        [left; apply N.leb_gt | right; apply N.leb_gt]; lia. }
  replace (0xE0 + c / 4096) with n0 by (subst c; lia).
  replace (0x80 + (c / 64) mod 64) with n1 by (subst c; lia).
  replace (0x80 + c mod 64) with n2 by (subst c; lia).
  subst n0 n1 n2. now rewrite !byte_of_to_N.
Qed.

Lemma encode_char_4 (b0 b1 b2 b3 : byte) :
  in_range 0xF0 0xF4 (Byte.to_N b0) = true ->
  in_range (second_lo (Byte.to_N b0)) (second_hi (Byte.to_N b0))
    (Byte.to_N b1) = true ->
  continuation (Byte.to_N b2) = true ->
  continuation (Byte.to_N b3) = true ->
  encode_char ((Byte.to_N b0 - 0xF0) * 262144 + (Byte.to_N b1 - 0x80) * 4096
               + (Byte.to_N b2 - 0x80) * 64 + (Byte.to_N b3 - 0x80))
  = Some [b0; b1; b2; b3].
Proof.
  intros H0 H1 H2 H3. ranges.
  set (n0 := Byte.to_N b0) in *. set (n1 := Byte.to_N b1) in *.
  set (n2 := Byte.to_N b2) in *. set (n3 := Byte.to_N b3) in *.
  set (c := (n0 - 0xF0) * 262144 + (n1 - 0x80) * 4096
            + (n2 - 0x80) * 64 + (n3 - 0x80)).
  assert (Hc : 0x10000 <= c < 0x110000).
  { subst c. lead_cases n0; lia. }
  assert (Hn1 : 0x80 <= n1 <= 0xBF) by (lead_cases n0; lia).
  unfold encode_char.
  destruct (N.ltb_spec c 0x80); [lia |].
  destruct (N.ltb_spec c 0x800); [lia |].
  destruct (N.ltb_spec c 0x10000); [lia |].
  destruct (N.ltb_spec c 0x110000); [| lia].
  replace (0xF0 + c / 262144) with n0 by (subst c; lia).
  replace (0x80 + (c / 4096) mod 64) with n1 by (subst c; lia).
  replace (0x80 + (c / 64) mod 64) with n2 by (subst c; lia).
  replace (0x80 + c mod 64) with n3 by (subst c; lia).
  subst n0 n1 n2 n3. now rewrite !byte_of_to_N.
Qed.

Lemma option_map_cons_inv (c : N) (o : option text) (s : text) :
  option_map (cons c) o = Some s -> exists s', o = Some s' /\ s = c :: s'.
Proof.
  destruct o as [s' |]; simpl; intros H; [| discriminate].
  exists s'. split; [reflexivity | congruence].
Qed.

Lemma decode_cons (b0 : byte) (r0 : list byte) :
  decode (b0 :: r0) =
  let n0 := Byte.to_N b0 in
  if n0 <? 0x80 then option_map (cons n0) (decode r0)
  else if in_range 0xC2 0xDF n0 then
    match r0 with
    | b1 :: r1 =>
        if continuation (Byte.to_N b1)
        then option_map (cons ((n0 - 0xC0) * 64 + (Byte.to_N b1 - 0x80)))
                        (decode r1)
        else None
    | _ => None
    end
  else if in_range 0xE0 0xEF n0 then
    match r0 with
    | b1 :: b2 :: r2 =>
        if in_range (second_lo n0) (second_hi n0) (Byte.to_N b1)
           && continuation (Byte.to_N b2)
        then option_map
               (cons ((n0 - 0xE0) * 4096 + (Byte.to_N b1 - 0x80) * 64
                      + (Byte.to_N b2 - 0x80)))
               (decode r2)
        else None
    | _ => None
    end
  else if in_range 0xF0 0xF4 n0 then
    match r0 with
    | b1 :: b2 :: b3 :: r3 =>
        if in_range (second_lo n0) (second_hi n0) (Byte.to_N b1)
           && continuation (Byte.to_N b2) && continuation (Byte.to_N b3)
        then option_map
               (cons ((n0 - 0xF0) * 262144 + (Byte.to_N b1 - 0x80) * 4096
                      + (Byte.to_N b2 - 0x80) * 64 + (Byte.to_N b3 - 0x80)))
               (decode r3)
        else None
    | _ => None
    end
  else None.
Proof. reflexivity. Qed.

(** A multi-byte sequence never decodes to a carriage return. *)
Ltac not_cr n0 :=
  let E := fresh in
  intros [E | ?]; [exfalso; ranges; lead_cases n0; lia | repeat right; auto].

(** By induction on a bound of the length: a sequence takes one to four
    bytes. *)
Lemma decode_encode_bounded (n : nat) : forall bs s,
  (List.length bs <= n)%nat -> decode bs = Some s ->
  encode s = Some bs /\ (In 13 s -> In x0d bs).
Proof.
  induction n as [| n IH]; intros bs s Hlen H.
  - destruct bs; [| simpl in Hlen; lia].
    inversion H. split; [reflexivity | intros []].
  - destruct bs as [| b0 r0].
    { inversion H. split; [reflexivity | intros []]. }
    rewrite decode_cons in H. cbv zeta in H. simpl in Hlen.
    destruct (Byte.to_N b0 <? 0x80) eqn:E1.
    { apply option_map_cons_inv in H as (s' & Hd & ->).
      apply IH in Hd as [He Hcr]; [| lia]. split.
      - cbn [encode]. now rewrite encode_char_1, He.
      - intros [Heq | Hin]; [left | right; auto].
        rewrite <- (byte_of_to_N b0), Heq. reflexivity. }
    destruct (in_range 0xC2 0xDF (Byte.to_N b0)) eqn:E2.
    { destruct r0 as [| b1 r1]; [discriminate |].
      destruct (continuation (Byte.to_N b1)) eqn:E3; [| discriminate].
      apply option_map_cons_inv in H as (s' & Hd & ->).
      apply IH in Hd as [He Hcr]; [| simpl in Hlen; lia]. split.
      - cbn [encode]. now rewrite encode_char_2, He.
      - not_cr (Byte.to_N b0). }
    destruct (in_range 0xE0 0xEF (Byte.to_N b0)) eqn:E3.
    { destruct r0 as [| b1 [| b2 r2]]; try discriminate.
      destruct (in_range (second_lo (Byte.to_N b0))
                  (second_hi (Byte.to_N b0)) (Byte.to_N b1)) eqn:E4;
        [| discriminate].
      destruct (continuation (Byte.to_N b2)) eqn:E5; [| discriminate].
      apply option_map_cons_inv in H as (s' & Hd & ->).
      apply IH in Hd as [He Hcr]; [| simpl in Hlen; lia]. split.
      - cbn [encode]. now rewrite encode_char_3, He.
      - not_cr (Byte.to_N b0). }
    destruct (in_range 0xF0 0xF4 (Byte.to_N b0)) eqn:E4; [| discriminate].
    destruct r0 as [| b1 [| b2 [| b3 r3]]]; try discriminate.
    destruct (in_range (second_lo (Byte.to_N b0))
                (second_hi (Byte.to_N b0)) (Byte.to_N b1)) eqn:E5;
      [| discriminate].
    destruct (continuation (Byte.to_N b2)) eqn:E6; [| discriminate].
    destruct (continuation (Byte.to_N b3)) eqn:E7; [| discriminate].
    apply option_map_cons_inv in H as (s' & Hd & ->).
    apply IH in Hd as [He Hcr]; [| simpl in Hlen; lia]. split.
    + cbn [encode]. now rewrite encode_char_4, He.
    + not_cr (Byte.to_N b0).
Qed.

(** Round trip: the text decoded from [bs] encodes, and to [bs]. *)
Lemma decode_encode (bs : list byte) (s : text) :
  decode bs = Some s -> encode s = Some bs.
Proof.
  intros H. now apply (decode_encode_bounded (List.length bs)).
Qed.

Lemma decode_carriage_return (bs : list byte) (s : text) :
  decode bs = Some s -> In 13 s -> In x0d bs.
Proof.
  intros H. now apply (decode_encode_bounded (List.length bs)).
Qed.

Lemma encode_app (s t : text) :
  encode (s ++ t)%list =
  match encode s, encode t with
  | Some a, Some b => Some (a ++ b)%list
  | _, _ => None
  end.
Proof.
  induction s as [| c s IH]; simpl.
  - now destruct (encode t).
  - rewrite IH. destruct (encode_char c), (encode s), (encode t);
      try reflexivity. now rewrite app_assoc.
Qed.

End Utf8Facts.

(** ** Text input: universal newlines and the split into lines *)

Module TextIOFacts.

Import Utf8 TextIO.
Local Open Scope N_scope.

(** Induction two elements at a time, as [translate_newlines] recurses. *)
Lemma list_pair_ind {X : Type} (P : list X -> Prop) :
  P [] -> (forall x, P [x]) ->
  (forall x y l, P l -> P (y :: l) -> P (x :: y :: l)) ->
  forall l, P l.
Proof.
  intros H0 H1 H2 l.
  enough (P l /\ forall x, P (x :: l)) by tauto.
  induction l as [| y l [IHa IHb]]; split; auto.
Qed.

Lemma translate_no_cr (s : text) :
  ~ In CR s -> translate_newlines s = s.
Proof.
  induction s as [| c s IH]; intros H; [reflexivity |].
  cbn [translate_newlines].
  destruct (N.eqb_spec c CR) as [-> | _].
  - exfalso. apply H. now left.
  - f_equal. apply IH. intros Hin. apply H. now right.
Qed.

Lemma translate_In (s : text) (c : N) :
  In c (translate_newlines s) -> c = LF \/ In c s.
Proof.
  revert c. induction s as [| x | x y l IHl IHyl] using list_pair_ind;
    intros c.
  - intros [].
  - cbn [translate_newlines]. destruct (N.eqb x CR); simpl; intuition.
  - cbn [translate_newlines]. destruct (N.eqb x CR).
    + destruct (N.eqb y LF).
      * intros [<- | Hin]; [now left |].
        apply IHl in Hin as [-> | Hin]; [now left | right; simpl; auto].
      * intros [<- | Hin]; [now left |].
        apply IHyl in Hin as [-> | Hin]; [now left | right; simpl; auto].
    + intros [<- | Hin]; [right; now left |].
      apply IHyl in Hin as [-> | Hin]; [now left | right; simpl; auto].
Qed.

Lemma translate_nil (s : text) : translate_newlines s = [] -> s = [].
Proof.
  destruct s as [| c s]; [reflexivity |].
  cbn [translate_newlines]. destruct (N.eqb c CR); discriminate.
Qed.

Lemma concat_split_lines (s cur : text) :
  List.concat (split_lines cur s) = (cur ++ s)%list.
Proof.
  revert cur. induction s as [| c s IH]; intros cur.
  - destruct cur; simpl; [reflexivity |].
    now rewrite !app_nil_r.
  - cbn [split_lines]. destruct (N.eqb c LF).
    + cbn [List.concat]. rewrite IH. now rewrite <- app_assoc.
    + rewrite IH. now rewrite <- app_assoc.
Qed.

Lemma split_lines_nil (s cur : text) :
  split_lines cur s = [] -> cur = [] /\ s = [].
Proof.
  intros H. apply (f_equal (@List.concat N)) in H.
  rewrite concat_split_lines in H. simpl in H.
  now apply app_eq_nil in H.
Qed.

(** A text that encodes still encodes after the translation. *)
Lemma encode_some_iff (s : text) :
  (exists data, encode s = Some data) <->
  Forall (fun c => encode_char c <> None) s.
Proof.
  induction s as [| c s IH]; simpl.
  - split; [constructor | now exists []].
  - split.
    + intros [data H]. destruct (encode_char c) eqn:Ec; [| discriminate].
      destruct (encode s) eqn:Es; [| discriminate].
      constructor; [congruence |]. apply IH. eauto.
    + intros H. inversion H as [| ? ? Hc Hs]; subst.
      apply IH in Hs as [data Hs]. rewrite Hs.
      destruct (encode_char c); [eauto | congruence].
Qed.

Lemma encode_translate (s : text) (data : list byte) :
  encode s = Some data ->
  exists data', encode (translate_newlines s) = Some data'.
Proof.
  intros H. apply encode_some_iff. apply Forall_forall. intros c Hin.
  apply translate_In in Hin as [-> | Hin]; [discriminate |].
  assert (Hs : exists d, encode s = Some d) by eauto.
  apply encode_some_iff in Hs. rewrite Forall_forall in Hs. now apply Hs.
Qed.

End TextIOFacts.

(** ** Strings *)

Module StringFacts.

Lemma append_inv_head (out a b : string) :
  (out ++ a)%string = (out ++ b)%string -> a = b.
Proof.
  induction out as [| c out IH]; simpl; intros H; [assumption |].
  apply IH. congruence.
Qed.

Lemma length_append (a b : string) :
  String.length (a ++ b) = (String.length a + String.length b)%nat.
Proof. induction a as [| c a IH]; simpl; [reflexivity | now rewrite IH]. Qed.

Lemma append_assoc (a b c : string) :
  ((a ++ b) ++ c)%string = (a ++ (b ++ c))%string.
Proof. induction a as [| x a IH]; simpl; [reflexivity | now rewrite IH]. Qed.

Lemma append_nil_r (a : string) : (a ++ "")%string = a.
Proof. induction a as [| x a IH]; simpl; [reflexivity | now rewrite IH]. Qed.

End StringFacts.

(** ** The digest is 64 lowercase hexadecimal digits *)

Module KeccakFacts.

Import Keccak.

Lemma update_app (h : sha3) (a b : list byte) :
  update h (a ++ b) = update (update h a) b.
Proof. unfold update. apply fold_left_app. Qed.

Lemma hex_length (bs : list byte) :
  String.length (hex bs) = (2 * List.length bs)%nat.
Proof.
  induction bs as [| b bs IH]; [reflexivity |].
  cbn [hex String.length List.length]. rewrite IH. lia.
Qed.

Lemma hex_digit_lower (b : byte) :
  is_lower_hex (hex_digit (Byte.to_N b / 16)) = true
  /\ is_lower_hex (hex_digit (Byte.to_N b mod 16)) = true.
Proof. destruct b; split; vm_compute; reflexivity. Qed.

Lemma hex_lower (bs : list byte) :
  string_forallb is_lower_hex (hex bs) = true.
Proof.
  induction bs as [| b bs IH]; [reflexivity |].
  cbn [hex string_forallb].
  destruct (hex_digit_lower b) as [-> ->]. now rewrite IH.
Qed.

Lemma hexdigest_is_hex (h : sha3) : is_hex_digest (hexdigest h).
Proof.
  unfold is_hex_digest, hexdigest, digest. split.
  - now rewrite hex_length, length_map, length_seq.
  - apply hex_lower.
Qed.

End KeccakFacts.

(** ** The blocks of [hash] evaluated *)

Module HashFacts.

Import Utf8 TextIO.

Lemma hash_blocks (fs : filesystem) (args : Namespace) (shouldReturn : bool) :
  hash fs args shouldReturn =
  bind (read_lines fs args)
    (fun lines =>
       bind (hash_lines lines)
         (fun digest => report lines digest shouldReturn)).
Proof. reflexivity. Qed.

(** The first [try] statement returns, writes nothing, and gives the lines
    of the file, or no line when the file cannot be read. *)
Lemma read_lines_eval (fs : filesystem) (args : Namespace) (out : string) :
  read_lines fs args out = (Returned (lines_of fs args), out).
Proof.
  unfold read_lines, open_and_read, lines_of, try_except, bind, getattr.
  destruct (lookup "file" args) as [[| path |] |]; try reflexivity.
  cbv [ret raise open readlines raw].
  destruct (fs path) as [| | | content]; try reflexivity.
  destruct (decode content); reflexivity.
Qed.

(** The loop feeds the accumulator the encoded lines in order: as much as
    feeding it their concatenation; it raises when a line cannot be
    encoded. *)
Lemma for_each_update (lines : list text) (h : Keccak.sha3) (out : string) :
  for_each lines h
    (fun h line => bind (str_encode line)
                     (fun data => ret (Keccak.update h data))) out
  = match encode (List.concat lines) with
    | Some data => (Returned (Keccak.update h data), out)
    | None => (Raised UnicodeEncodeError, out)
    end.
Proof.
  revert h. induction lines as [| line lines IH]; intros h; [reflexivity |].
  cbn [for_each List.concat]. rewrite Utf8Facts.encode_app.
  unfold bind at 1. unfold bind at 1. unfold str_encode.
  destruct (encode line) as [a |]; [| reflexivity].
  cbn [ret raise]. unfold ret at 1. rewrite IH.
  destruct (encode (List.concat lines)) as [b |]; [| reflexivity].
  now rewrite KeccakFacts.update_app.
Qed.

Lemma feed_lines_eval (lines : list text) (out : string) :
  feed_lines lines out =
  match encode (List.concat lines) with
  | Some data => (Returned (Some (sha3_256_hex data)), out)
  | None => (Raised UnicodeEncodeError, out)
  end.
Proof.
  unfold feed_lines. unfold bind at 1. unfold ret at 1.
  unfold bind at 1. rewrite for_each_update.
  destruct (encode (List.concat lines)); reflexivity.
Qed.

(** The second [try] statement returns and writes nothing. *)
Lemma hash_lines_eval (lines : list text) (out : string) :
  hash_lines lines out = (Returned (digest_of lines), out).
Proof.
  unfold hash_lines, try_except, digest_of. rewrite feed_lines_eval.
  destruct (encode (List.concat lines)); reflexivity.
Qed.

Lemma report_eval (lines : list text) (digest : option string)
    (shouldReturn : bool) (out : string) :
  report lines digest shouldReturn out =
  if no_content lines digest then no_content_outcome shouldReturn out
  else if shouldReturn then (Returned digest, out)
       else (Returned None, (out ++ str_of digest ++ newline)%string).
Proof.
  unfold report, no_content_outcome.
  destruct (no_content lines digest), shouldReturn; reflexivity.
Qed.

Lemma hash_eval (fs : filesystem) (args : Namespace) (shouldReturn : bool)
    (out : string) :
  hash fs args shouldReturn out =
  report (lines_of fs args) (digest_of (lines_of fs args)) shouldReturn out.
Proof.
  rewrite hash_blocks. unfold bind.
  rewrite read_lines_eval, hash_lines_eval. reflexivity.
Qed.

Lemma lines_of_file (fs : filesystem) (args : Namespace) (path : string)
    (content : list byte) :
  lookup "file" args = Some (PyStr path) ->
  fs path = Regular content ->
  lines_of fs args =
  match decode content with
  | Some s => split_lines [] (translate_newlines s)
  | None => []
  end.
Proof. intros Ha Hf. unfold lines_of. now rewrite Ha, Hf. Qed.

(** Whatever was read encodes again: the lines come from a strict decoder,
    and the translation of newlines brings in line feeds only. *)
Lemma lines_of_encode (fs : filesystem) (args : Namespace) :
  exists data, encode (List.concat (lines_of fs args)) = Some data.
Proof.
  unfold lines_of.
  destruct (lookup "file" args) as [[| path |] |]; try (now exists []).
  destruct (fs path) as [| | | content]; try (now exists []).
  destruct (decode content) as [s |] eqn:Hd; [| now exists []].
  rewrite TextIOFacts.concat_split_lines. cbn [app].
  apply Utf8Facts.decode_encode in Hd.
  eapply TextIOFacts.encode_translate; eassumption.
Qed.

Lemma digest_of_lines_of (fs : filesystem) (args : Namespace) :
  exists data, digest_of (lines_of fs args) = Some (sha3_256_hex data).
Proof.
  destruct (lines_of_encode fs args) as [data H].
  exists data. unfold digest_of. now rewrite H.
Qed.

Lemma sha3_256_hex_is_hex (data : list byte) :
  is_hex_digest (sha3_256_hex data).
Proof. apply KeccakFacts.hexdigest_is_hex. Qed.

Lemma option_string_eqb_eq (a b : option string) :
  option_string_eqb a b = true <-> a = b.
Proof.
  destruct a as [x |], b as [y |]; simpl;
    try (split; [discriminate | congruence]); [| tauto].
  rewrite String.eqb_eq. split; congruence.
Qed.

Lemma no_content_true_iff (lines : list text) (digest : option string) :
  no_content lines digest = true <->
  lines = [] \/ digest = None \/ digest = Some empty_digest.
Proof.
  unfold no_content. rewrite !orb_true_iff, !option_string_eqb_eq.
  rewrite Nat.eqb_eq, length_zero_iff_nil. tauto.
Qed.

Lemma no_content_nil (digest : option string) : no_content [] digest = true.
Proof. reflexivity. Qed.

(** A digest is never the text [nocontent], with or without what follows
    on the line. *)
Lemma digest_line_not_sentinel (d : string) (out : string) :
  is_hex_digest d ->
  (out ++ d ++ newline)%string <> (out ++ "nocontent" ++ newline)%string.
Proof.
  intros [Hlen _] H. apply StringFacts.append_inv_head in H.
  apply (f_equal String.length) in H.
  rewrite !StringFacts.length_append, Hlen in H. simpl in H. lia.
Qed.

Lemma lower_hex_no_newline (s : string) :
  string_forallb is_lower_hex s = true -> no_newline s.
Proof.
  unfold no_newline. induction s as [| c s IH]; [reflexivity |].
  cbn [string_forallb]. intros H. apply andb_true_iff in H as [Hc Hs].
  rewrite (IH Hs), andb_true_r.
  destruct (Ascii.eqb_spec c (ascii_of_N 10)) as [-> | _];
    [discriminate | reflexivity].
Qed.

(** Print mode appends one line, the sentinel or a digest. *)
Lemma hash_prints_one_line (fs : filesystem) (args : Namespace)
    (out : string) :
  exists line,
    hash fs args false out = (Returned None, (out ++ line ++ newline)%string)
    /\ no_newline line
    /\ (line = "nocontent" \/ is_hex_digest line).
Proof.
  rewrite hash_eval, report_eval.
  destruct (digest_of_lines_of fs args) as [data ->].
  destruct (no_content _ _).
  - exists "nocontent". split; [reflexivity |]. split; [reflexivity | now left].
  - exists (sha3_256_hex data). split; [reflexivity |].
    pose proof (sha3_256_hex_is_hex data) as Hd.
    split; [apply lower_hex_no_newline, Hd | now right].
Qed.

End HashFacts.

(** ** The decision rule of [hash] *)

(** C1. For every invocation of [hash]: with [lines] and [digest] the values
    the two [try] statements give, the "no content" outcome ([None] returned
    in return mode, the text [nocontent] printed in print mode) is produced
    exactly when [lines] is empty, or [digest] is [None], or [digest] is the
    constant a7ffc6f8...; otherwise return mode returns the digest and print
    mode prints it. *)
Theorem no_content_rule (fs : TextIO.filesystem) (args : Namespace)
    (shouldReturn : bool) (out : string) :
  exists lines digest,
    read_lines fs args out = (Returned lines, out)
    /\ hash_lines lines out = (Returned digest, out)
    /\ (hash fs args shouldReturn out = no_content_outcome shouldReturn out
        <-> lines = [] \/ digest = None \/ digest = Some empty_digest)
    /\ (~ (lines = [] \/ digest = None \/ digest = Some empty_digest) ->
        exists d, digest = Some d
                  /\ hash fs args shouldReturn out
                     = digest_outcome d shouldReturn out).
Proof.
  exists (lines_of fs args), (digest_of (lines_of fs args)).
  split; [apply HashFacts.read_lines_eval |].
  split; [apply HashFacts.hash_lines_eval |].
  rewrite HashFacts.hash_eval, HashFacts.report_eval.
  rewrite <- HashFacts.no_content_true_iff.
  destruct (HashFacts.digest_of_lines_of fs args) as [data Hd].
  rewrite Hd.
  destruct (no_content (lines_of fs args) (Some (sha3_256_hex data))).
  - split; [tauto | intros H; now elim H].
  - split.
    + split; [| discriminate].
      unfold no_content_outcome. destruct shouldReturn; [discriminate |].
      intros H. exfalso.
      apply (HashFacts.digest_line_not_sentinel (sha3_256_hex data) out).
      * apply HashFacts.sha3_256_hex_is_hex.
      * cbn [str_of] in H. congruence.
    + intros _. exists (sha3_256_hex data). split; [reflexivity |].
      unfold digest_outcome. now destruct shouldReturn.
Qed.

(** The file "hello\n" takes the digest branch. *)
Lemma no_content_rule_witness :
  hash (one_file "f" (bytes_of_string ("hello" ++ newline))) (file_args "f")
    true ""
  = digest_outcome
      "b314e28493eae9dab57ac4f0c6d887bddbbeb810e900d818395ace558e96516d"
      true "".
Proof.
  destruct (no_content_rule
              (one_file "f" (bytes_of_string ("hello" ++ newline)))
              (file_args "f") true "")
    as (lines & digest & Hr & Hh & _ & Hd).
  assert (El : lines = [[104; 101; 108; 108; 111; 10]%N]).
  { rewrite HashFacts.read_lines_eval in Hr. vm_compute in Hr. congruence. }
  subst lines.
  assert (Ed : digest
               = Some
                   "b314e28493eae9dab57ac4f0c6d887bddbbeb810e900d818395ace558e96516d").
  { rewrite HashFacts.hash_lines_eval in Hh. vm_compute in Hh. congruence. }
  subst digest.
  destruct Hd as (d & Hd1 & Hd2).
  - intros [H | [H | H]]; discriminate.
  - injection Hd1 as <-. exact Hd2.
Defined.

(** ** Failures are absorbed *)

(** C2. When the body of the first [try] (getting the path, opening the file
    as UTF-8 text, reading its lines) raises any exception, [lines] is the
    empty list and [hash] gives the "no content" outcome; when the body of
    the second [try] raises, [digest] is [None] and the final [if] gives the
    "no content" outcome; and [hash] itself never raises. *)
Theorem failures_absorbed (fs : TextIO.filesystem) (args : Namespace)
    (shouldReturn : bool) (out : string) :
  (forall e out',
      open_and_read fs args out = (Raised e, out') ->
      read_lines fs args out = (Returned [], out')
      /\ hash fs args shouldReturn out = no_content_outcome shouldReturn out)
  /\ (forall lines e out',
         feed_lines lines out = (Raised e, out') ->
         hash_lines lines out = (Returned None, out')
         /\ report lines None shouldReturn out'
            = no_content_outcome shouldReturn out')
  /\ (exists v out', hash fs args shouldReturn out = (Returned v, out')).
Proof.
  split; [| split].
  - intros e out' H.
    assert (Hr : read_lines fs args out = (Returned [], out')).
    { unfold read_lines, try_except. now rewrite H. }
    split; [exact Hr |].
    rewrite HashFacts.read_lines_eval in Hr. injection Hr as Hl _.
    rewrite HashFacts.hash_eval, Hl, HashFacts.report_eval.
    now rewrite HashFacts.no_content_nil.
  - intros lines e out' H. split.
    + unfold hash_lines, try_except. now rewrite H.
    + rewrite HashFacts.report_eval.
      replace (no_content lines None) with true; [reflexivity |].
      symmetry. apply HashFacts.no_content_true_iff. tauto.
  - rewrite HashFacts.hash_eval, HashFacts.report_eval.
    unfold no_content_outcome.
    destruct (no_content _ _), shouldReturn; eauto.
Qed.

(** A missing file, and a line that holds a lone surrogate. *)
Lemma failures_absorbed_witness :
  hash (fun _ => TextIO.Missing) (file_args "f") false ""
  = (Returned None, "nocontent" ++ newline)
  /\ report [[0xD800%N]] None true "" = (Returned None, "").
Proof.
  split.
  - apply (proj1 (failures_absorbed (fun _ => TextIO.Missing) (file_args "f")
                    false "") FileNotFoundError "").
    reflexivity.
  - apply (proj1 (proj2 (failures_absorbed (fun _ => TextIO.Missing)
                           (file_args "f") true ""))
             [[0xD800%N]] UnicodeEncodeError "").
    reflexivity.
Defined.

(** C3. For a path that names no file, and equally for an existing file of
    zero bytes, print mode writes exactly [nocontent] and a newline, and
    return mode returns [None] and writes nothing. *)
Theorem missing_and_empty_alike (fs : TextIO.filesystem) (args : Namespace)
    (path : string) (out : string) :
  lookup "file" args = Some (PyStr path) ->
  fs path = TextIO.Missing \/ fs path = TextIO.Regular [] ->
  hash fs args false out = (Returned None, (out ++ "nocontent" ++ newline)%string)
  /\ hash fs args true out = (Returned None, out).
Proof.
  intros Ha Hf.
  assert (Hl : lines_of fs args = []).
  { unfold lines_of. rewrite Ha. now destruct Hf as [-> | ->]. }
  rewrite !HashFacts.hash_eval, Hl, !HashFacts.report_eval.
  now rewrite HashFacts.no_content_nil.
Qed.

Lemma missing_and_empty_alike_witness :
  (hash (one_file "present" []) (file_args "absent") false ""
   = (Returned None, "nocontent" ++ newline)
   /\ hash (one_file "present" []) (file_args "absent") true ""
      = (Returned None, ""))
  /\ (hash (one_file "present" []) (file_args "present") false ""
      = (Returned None, "nocontent" ++ newline)
      /\ hash (one_file "present" []) (file_args "present") true ""
         = (Returned None, "")).
Proof.
  split.
  - apply (missing_and_empty_alike (one_file "present" [])
             (file_args "absent") "absent" "");
      [reflexivity | left; reflexivity].
  - apply (missing_and_empty_alike (one_file "present" [])
             (file_args "present") "present" "");
      [reflexivity | right; reflexivity].
Defined.

(** ** What is printed and what is returned *)

(** C4. In print mode [hash] appends exactly one line to the standard
    output: a text without newline followed by one newline, the text being
    either 64 lowercase hexadecimal digits or [nocontent]. *)
Theorem print_mode_one_line (fs : TextIO.filesystem) (args : Namespace)
    (out : string) :
  exists line,
    hash fs args false out = (Returned None, (out ++ line ++ newline)%string)
    /\ no_newline line
    /\ (line = "nocontent" \/ is_hex_digest line).
Proof.
  rewrite HashFacts.hash_eval, HashFacts.report_eval.
  destruct (HashFacts.digest_of_lines_of fs args) as [data ->].
  destruct (no_content _ _).
  - exists "nocontent". split; [reflexivity |]. split; [reflexivity | now left].
  - exists (sha3_256_hex data). split; [reflexivity |].
    pose proof (HashFacts.sha3_256_hex_is_hex data) as Hd.
    split; [apply HashFacts.lower_hex_no_newline, Hd | now right].
Qed.

(** C8. In return mode [hash] returns, writes nothing, and its value is
    either [None] or a digest string, never both and never neither. *)
Theorem return_mode_exclusive (fs : TextIO.filesystem) (args : Namespace)
    (out : string) :
  exists v,
    hash fs args true out = (Returned v, out)
    /\ (v = None \/ exists d, v = Some d /\ is_hex_digest d)
    /\ ~ (v = None /\ exists d, v = Some d).
Proof.
  rewrite HashFacts.hash_eval, HashFacts.report_eval.
  destruct (HashFacts.digest_of_lines_of fs args) as [data ->].
  destruct (no_content _ _).
  - exists None. split; [reflexivity |]. split; [now left |].
    intros [_ [d H]]. discriminate.
  - exists (Some (sha3_256_hex data)). split; [reflexivity |]. split.
    + right. exists (sha3_256_hex data).
      split; [reflexivity | apply HashFacts.sha3_256_hex_is_hex].
    + intros [H _]. discriminate.
Qed.

(** ** The digest as a function of the content *)

(** C5. Two runs over files with the same bytes, whatever the file systems,
    the paths and the rest of the namespaces, give the same outcome; more
    generally the outcome is a function of the sequence of lines read: two
    runs whose first [try] gives the same lines give the same outcome. *)
Theorem digest_deterministic (fs1 fs2 : TextIO.filesystem)
    (args1 args2 : Namespace) (path1 path2 : string) (content : list byte)
    (shouldReturn : bool) (out : string) :
  lookup "file" args1 = Some (PyStr path1) ->
  lookup "file" args2 = Some (PyStr path2) ->
  fs1 path1 = TextIO.Regular content ->
  fs2 path2 = TextIO.Regular content ->
  hash fs1 args1 shouldReturn out = hash fs2 args2 shouldReturn out
  /\ (forall fs fs' args args',
         read_lines fs args out = read_lines fs' args' out ->
         hash fs args shouldReturn out = hash fs' args' shouldReturn out).
Proof.
  intros Ha1 Ha2 Hf1 Hf2. split.
  - rewrite !HashFacts.hash_eval.
    rewrite (HashFacts.lines_of_file fs1 args1 path1 content Ha1 Hf1).
    now rewrite (HashFacts.lines_of_file fs2 args2 path2 content Ha2 Hf2).
  - intros fs fs' args args' H.
    rewrite !HashFacts.read_lines_eval in H. injection H as H.
    rewrite !HashFacts.hash_eval. now rewrite H.
Qed.

Lemma digest_deterministic_witness :
  hash (one_file "a.txt" (bytes_of_string "abc")) (file_args "a.txt") true ""
  = hash (one_file "b.txt" (bytes_of_string "abc"))
      [("verbose", PyNone); ("file", PyStr "b.txt")] true "".
Proof.
  exact (proj1 (digest_deterministic
                  (one_file "a.txt" (bytes_of_string "abc"))
                  (one_file "b.txt" (bytes_of_string "abc"))
                  (file_args "a.txt")
                  [("verbose", PyNone); ("file", PyStr "b.txt")]
                  "a.txt" "b.txt" (bytes_of_string "abc") true ""
                  eq_refl eq_refl eq_refl eq_refl)).
Defined.

(** C7. For a file of exactly the bytes of "hello\n", one line is read, the
    six characters with the line feed, and the digest returned (or printed)
    is SHA3-256 of those six bytes: b314e284...96516d. *)
Theorem hello_digest (fs : TextIO.filesystem) (args : Namespace)
    (path : string) (out : string) :
  lookup "file" args = Some (PyStr path) ->
  fs path = TextIO.Regular (bytes_of_string ("hello" ++ newline)) ->
  read_lines fs args out
  = (Returned [[104; 101; 108; 108; 111; 10]%N], out)
  /\ hash fs args true out
     = (Returned (Some (sha3_256_hex (bytes_of_string ("hello" ++ newline)))),
        out)
  /\ hash fs args false out
     = (Returned None,
        (out ++ sha3_256_hex (bytes_of_string ("hello" ++ newline))
             ++ newline)%string)
  /\ sha3_256_hex (bytes_of_string ("hello" ++ newline))
     = "b314e28493eae9dab57ac4f0c6d887bddbbeb810e900d818395ace558e96516d".
Proof.
  intros Ha Hf.
  pose proof (HashFacts.lines_of_file fs args path _ Ha Hf) as Hl.
  assert (Hlines : lines_of fs args = [[104; 101; 108; 108; 111; 10]%N]).
  { rewrite Hl. vm_compute. reflexivity. }
  assert (He : Utf8.encode (List.concat [[104; 101; 108; 108; 111; 10]%N])
               = Some (bytes_of_string ("hello" ++ newline))).
  { vm_compute. reflexivity. }
  assert (Hv : sha3_256_hex (bytes_of_string ("hello" ++ newline))
    = "b314e28493eae9dab57ac4f0c6d887bddbbeb810e900d818395ace558e96516d").
  { vm_compute. reflexivity. }
  assert (Hn : no_content [[104; 101; 108; 108; 111; 10]%N]
                 (Some (sha3_256_hex (bytes_of_string ("hello" ++ newline))))
               = false).
  { rewrite Hv. vm_compute. reflexivity. }
  split; [rewrite HashFacts.read_lines_eval, Hlines; reflexivity |].
  rewrite !HashFacts.hash_eval, Hlines, !HashFacts.report_eval.
  unfold digest_of. rewrite He, Hn. cbn [str_of].
  split; [reflexivity |]. split; [reflexivity |]. exact Hv.
Qed.

Lemma hello_digest_witness :
  hash (one_file "hello.txt" (bytes_of_string ("hello" ++ newline)))
    (file_args "hello.txt") true ""
  = (Returned (Some (sha3_256_hex (bytes_of_string ("hello" ++ newline)))), "").
Proof.
  exact (proj1 (proj2 (hello_digest
                         (one_file "hello.txt"
                            (bytes_of_string ("hello" ++ newline)))
                         (file_args "hello.txt") "hello.txt" ""
                         eq_refl eq_refl))).
Defined.

(** C10. The lines [readlines] returns after decoding a file as UTF-8 all
    encode to UTF-8 again: on them the body of the second [try] returns a
    digest and raises nothing.  So in [hash], whatever the first [try] did,
    [digest] is a string, not [None]: the disjunct [digest == None] of the
    final test never holds by itself. *)
Theorem hashing_cannot_fail (content : list byte) (lines : list Utf8.text)
    (out out' : string) :
  TextIO.readlines {| TextIO.raw := content |} out = (Returned lines, out') ->
  (exists data,
      Utf8.encode (List.concat lines) = Some data
      /\ feed_lines lines out' = (Returned (Some (sha3_256_hex data)), out'))
  /\ (forall fs args,
         exists lines' d,
           read_lines fs args out = (Returned lines', out)
           /\ hash_lines lines' out = (Returned (Some d), out)
           /\ (no_content lines' (Some d) = true ->
               lines' = [] \/ d = empty_digest)).
Proof.
  intros H. split.
  - unfold TextIO.readlines in H. cbn [TextIO.raw] in H.
    destruct (Utf8.decode content) as [s |] eqn:Hd; [| discriminate].
    injection H as <- _.
    rewrite TextIOFacts.concat_split_lines. cbn [app].
    apply Utf8Facts.decode_encode in Hd.
    destruct (TextIOFacts.encode_translate s content Hd) as [data He].
    exists data. split; [exact He |].
    rewrite HashFacts.feed_lines_eval, TextIOFacts.concat_split_lines.
    cbn [app]. now rewrite He.
  - intros fs args.
    destruct (HashFacts.digest_of_lines_of fs args) as [data Hd].
    exists (lines_of fs args), (sha3_256_hex data).
    split; [apply HashFacts.read_lines_eval |]. split.
    + rewrite HashFacts.hash_lines_eval. now rewrite Hd.
    + intros Hn. apply HashFacts.no_content_true_iff in Hn.
      destruct Hn as [Hn | [Hn | Hn]]; [now left | discriminate |].
      right. congruence.
Qed.

(** A euro sign, a line feed and an emoji: two lines, seven bytes. *)
Lemma hashing_cannot_fail_witness :
  exists data,
    Utf8.encode (List.concat [[0x20AC; 10]; [0x1F600]]%N) = Some data
    /\ feed_lines [[0x20AC; 10]; [0x1F600]]%N ""
       = (Returned (Some (sha3_256_hex data)), "").
Proof.
  exact (proj1 (hashing_cannot_fail [xe2; x82; xac; x0a; xf0; x9f; x98; x80]
                  [[0x20AC; 10]; [0x1F600]]%N "" "" eq_refl)).
Defined.

(** ** Line terminators *)

(** C6, refuted as stated. The files "a\r" and "a\n" differ in one byte, and
    "a\r\n" differs from "a\n" in its line terminator only; all three are
    read as the single line "a\n" and have the same digest. *)
Lemma terminator_bytes_collide :
  [x61; x0d] <> [x61; x0a]
  /\ hash (one_file "f" [x61; x0d]) (file_args "f") true ""
     = (Returned
          (Some "be5215abf72333a73b992dafdf4ab59884b948452e0015cfaddaa0b87a0e4515"),
        "")
  /\ hash (one_file "f" [x61; x0a]) (file_args "f") true ""
     = (Returned
          (Some "be5215abf72333a73b992dafdf4ab59884b948452e0015cfaddaa0b87a0e4515"),
        "")
  /\ hash (one_file "f" [x61; x0d; x0a]) (file_args "f") true ""
     = (Returned
          (Some "be5215abf72333a73b992dafdf4ab59884b948452e0015cfaddaa0b87a0e4515"),
        "").
Proof.
  split; [discriminate |].
  split; [vm_compute; reflexivity |].
  split; vm_compute; reflexivity.
Qed.

Lemma lines_nil_iff (content : list byte) (s : Utf8.text) :
  Utf8.decode content = Some s ->
  Nat.eqb (List.length (TextIO.split_lines [] (TextIO.translate_newlines s))) 0
  = is_nil content.
Proof.
  intros Hd. destruct content as [| b content].
  - injection Hd as <-. reflexivity.
  - cbn [is_nil]. apply Nat.eqb_neq. intros H.
    apply length_zero_iff_nil, TextIOFacts.split_lines_nil in H as [_ H].
    apply TextIOFacts.translate_nil in H. subst s.
    apply Utf8Facts.decode_encode in Hd. discriminate.
Qed.

(** C6, as the code has it. The file is decoded as UTF-8 and the line
    terminators "\r\n" and "\r" are translated to "\n"; the lines keep the
    translated terminators, and the digest is SHA3-256 of the UTF-8 encoding
    of the translated text.  For a file without carriage return the bytes
    hashed are the bytes of the file, nothing normalised and the trailing
    newline included. *)
Theorem digest_of_translated_text (fs : TextIO.filesystem) (args : Namespace)
    (path : string) (content : list byte) (s : Utf8.text)
    (shouldReturn : bool) (out : string) :
  lookup "file" args = Some (PyStr path) ->
  fs path = TextIO.Regular content ->
  Utf8.decode content = Some s ->
  exists data,
    Utf8.encode (TextIO.translate_newlines s) = Some data
    /\ List.concat (lines_of fs args) = TextIO.translate_newlines s
    /\ hash fs args shouldReturn out
       = (if is_nil content || String.eqb (sha3_256_hex data) empty_digest
          then no_content_outcome shouldReturn out
          else digest_outcome (sha3_256_hex data) shouldReturn out)
    /\ (~ In x0d content -> data = content).
Proof.
  intros Ha Hf Hd.
  pose proof (Utf8Facts.decode_encode content s Hd) as He.
  destruct (TextIOFacts.encode_translate s content He) as [data Ht].
  exists data. split; [exact Ht |].
  assert (Hl : lines_of fs args
               = TextIO.split_lines [] (TextIO.translate_newlines s)).
  { rewrite (HashFacts.lines_of_file fs args path content Ha Hf).
    now rewrite Hd. }
  assert (Hc : List.concat (lines_of fs args) = TextIO.translate_newlines s).
  { rewrite Hl. apply TextIOFacts.concat_split_lines. }
  split; [exact Hc |]. split.
  - rewrite HashFacts.hash_eval, HashFacts.report_eval.
    unfold digest_of. rewrite Hc, Ht. unfold no_content.
    rewrite Hl, (lines_nil_iff content s Hd). cbn [option_string_eqb].
    rewrite orb_false_r. unfold digest_outcome.
    destruct (is_nil content || String.eqb (sha3_256_hex data) empty_digest);
      [reflexivity |].
    now destruct shouldReturn.
  - intros Hcr.
    assert (Hs : TextIO.translate_newlines s = s).
    { apply TextIOFacts.translate_no_cr. intros Hin.
      apply Hcr. eapply Utf8Facts.decode_carriage_return; eassumption. }
    rewrite Hs in Ht. congruence.
Qed.

(** The file "hello\n": the six bytes are hashed as they are. *)
Lemma digest_of_translated_text_witness :
  exists data,
    Utf8.encode (TextIO.translate_newlines [104; 101; 108; 108; 111; 10]%N)
    = Some data
    /\ List.concat (lines_of (one_file "f" [x68; x65; x6c; x6c; x6f; x0a])
                      (file_args "f"))
       = TextIO.translate_newlines [104; 101; 108; 108; 111; 10]%N
    /\ hash (one_file "f" [x68; x65; x6c; x6c; x6f; x0a]) (file_args "f")
         true ""
       = (if is_nil [x68; x65; x6c; x6c; x6f; x0a]
             || String.eqb (sha3_256_hex data) empty_digest
          then no_content_outcome true ""
          else digest_outcome (sha3_256_hex data) true "")
    /\ (~ In x0d [x68; x65; x6c; x6c; x6f; x0a]
        -> data = [x68; x65; x6c; x6c; x6f; x0a]).
Proof.
  exact (digest_of_translated_text
           (one_file "f" [x68; x65; x6c; x6c; x6f; x0a]) (file_args "f") "f"
           [x68; x65; x6c; x6c; x6f; x0a] [104; 101; 108; 108; 111; 10]%N
           true "" eq_refl eq_refl eq_refl).
Defined.

(** ** Command-line parsing *)

Module ArgparseFacts.

Import Argparse.

Section WithHelp.

Variable format_help : ArgumentParser -> string.
Variable p : ArgumentParser.

(** Only the help action writes, and it exits. *)
Lemma take_action_out (st st' : parse_state) (t : Action * list string)
    (out out' : string) :
  take_action format_help p st t out = (Returned st', out') -> out' = out.
Proof.
  destruct t as [[| dest req] args]; cbn.
  - discriminate.
  - intros H. now injection H.
Qed.

Lemma for_each_take_out (tuples : list (Action * list string)) :
  forall (st st' : parse_state) (out out' : string),
    for_each tuples st (take_action format_help p) out = (Returned st', out')
    -> out' = out.
Proof.
  induction tuples as [| t tuples IH]; intros st st' out out' H.
  - now injection H.
  - cbn [for_each] in H. unfold bind in H.
    destruct (take_action format_help p st t out) as [[st1 | e] out1] eqn:E;
      [| discriminate].
    apply take_action_out in E. subst out1. eauto.
Qed.

Lemma consume_out (n : nat) :
  forall (items : list (string * pattern)) (st st' : parse_state)
         (out out' : string),
    (List.length items <= n)%nat ->
    consume format_help p items st out = (Returned st', out') -> out' = out.
Proof.
  induction n as [| n IH]; intros items st st' out out' Hlen H.
  - destruct items; [now injection H | simpl in Hlen; lia].
  - destruct items as [| [arg pat] rest]; [now injection H |].
    simpl in Hlen.
    destruct pat as [| [[[action |] os] e] |]; cbn [consume] in H;
      try (apply IH in H; [assumption | lia]).
    destruct (match e with
              | Some e0 => match_explicit p action os e0 rest
              | None => match_following action rest
              end) as [[tuples consumed] |]; [| discriminate].
    unfold bind in H.
    destruct (for_each tuples st (take_action format_help p) out)
      as [[st1 | e1] out1] eqn:E; [| discriminate].
    apply for_each_take_out in E. subst out1.
    destruct rest as [| x rest']; [now injection H |].
    simpl in Hlen.
    destruct consumed; apply IH in H; try assumption; simpl; lia.
Qed.

(** Parsing that returns has written nothing. *)
Lemma parse_known_args_out (sys_argv : list string)
    (args : option (list string)) (r : Namespace * list string)
    (out out' : string) :
  parse_known_args format_help p sys_argv args out = (Returned r, out')
  -> out' = out.
Proof.
  unfold parse_known_args, bind, lift. intros H.
  destruct (classify p _) as [items | e]; [| discriminate].
  destruct (consume format_help p items _ out) as [[st | e] out1] eqn:E;
    [| discriminate].
  apply (consume_out _ _ _ _ _ _ (le_n _)) in E. subst out1.
  destruct (existsb _ _); [discriminate | now injection H].
Qed.

(** Unrecognized arguments go to the extras, one after the other. *)
Lemma classify_unrecognized (l rest : list string) :
  forallb (unrecognized p) l = true ->
  exists items,
    forallb ignored items = true
    /\ map fst items = l
    /\ classify p (l ++ rest)
       = match classify p rest with
         | Returned r => Returned (items ++ r)%list
         | Raised e => Raised e
         end.
Proof.
  induction l as [| a l IH]; intros H.
  - exists []. repeat split. cbn [app]. now destruct (classify p rest).
  - cbn [forallb] in H. apply andb_true_iff in H as [Ha Hl].
    destruct (IH Hl) as (items & Hi & Hm & Hc).
    unfold unrecognized in Ha. apply andb_true_iff in Ha as [Hsep Ha].
    apply negb_true_iff in Hsep.
    cbn [app classify]. rewrite Hsep, Hc.
    destruct (parse_optional p a) as [[[[[action |] os] e] |] | e];
      try discriminate.
    + exists ((a, O (None, os, e)) :: items). repeat split.
      * exact Hi.
      * cbn [map fst]. now rewrite Hm.
      * now destruct (classify p rest).
    + exists ((a, A) :: items). repeat split.
      * exact Hi.
      * cbn [map fst]. now rewrite Hm.
      * now destruct (classify p rest).
Qed.

Lemma consume_ignored (items : list (string * pattern)) :
  forall (rest : list (string * pattern)) (st : parse_state) (out : string),
    forallb ignored items = true ->
    consume format_help p (items ++ rest) st out
    = consume format_help p rest
        {| namespace := namespace st;
           seen_actions := seen_actions st;
           extras := extras st ++ map fst items |} out.
Proof.
  induction items as [| [arg pat] items IH]; intros rest st out H.
  - cbn [app map]. rewrite app_nil_r. now destruct st.
  - cbn [forallb] in H. apply andb_true_iff in H as [Ha Hi].
    destruct pat as [| [[[action |] os] e] |]; try discriminate;
      cbn [app consume]; rewrite (IH _ _ _ Hi); unfold add_extra;
      cbn [namespace seen_actions extras map fst];
      now rewrite <- app_assoc.
Qed.

End WithHelp.

(** [-file path] among unrecognized arguments: the namespace holds the
    path, the other arguments are the extras. *)
Lemma parse_file_among_unrecognized (format_help : ArgumentParser -> string)
    (prog : string) (before : list string) (path : string)
    (after : list string) (out : string) :
  forallb (unrecognized the_parser) before = true ->
  positional the_parser path = true ->
  forallb (unrecognized the_parser) after = true ->
  parse_known_args format_help the_parser
    (prog :: before ++ "-file" :: path :: after) None out
  = (Returned (file_args path, (before ++ after)%list), out).
Proof.
  intros Hb Hp Ha.
  destruct (classify_unrecognized the_parser before
              ("-file" :: path :: after) Hb) as (ib & Hib & Hmb & Hcb).
  destruct (classify_unrecognized the_parser after [] Ha)
    as (ia & Hia & Hma & Hca).
  rewrite app_nil_r in Hca. cbn [classify] in Hca.
  unfold positional in Hp. apply andb_true_iff in Hp as [Hsep Hp].
  apply negb_true_iff in Hsep.
  destruct (parse_optional the_parser path) as [[t |] | e] eqn:Hpath;
    try discriminate.
  assert (Hfile : classify the_parser ("-file" :: path :: after)
                  = Returned (("-file",
                               O (Some (StoreAction "file" true), "-file",
                                  None))
                              :: (path, A) :: ia ++ [])%list).
  { cbn [classify].
    change (String.eqb "-file" "--") with false.
    change (parse_optional the_parser "-file")
      with (Returned (Some (Some (StoreAction "file" true), "-file",
                            @None string))).
    cbv iota. now rewrite Hsep, Hpath, Hca. }
  rewrite Hfile in Hcb.
  unfold parse_known_args, bind, lift. cbn [List.tl]. rewrite Hcb.
  rewrite (consume_ignored format_help the_parser ib _ _ _ Hib).
  cbn [consume match_following takes_value for_each take_action bind ret
       get_values remove_first namespace seen_actions extras].
  rewrite Hsep. unfold bind, ret.
  rewrite (consume_ignored format_help the_parser ia [] _ _ Hia).
  cbn [consume ret namespace seen_actions extras app].
  rewrite Hmb, Hma. reflexivity.
Qed.

(** Without a value for the required [-file], argparse reports the error
    and exits with status 2. *)
Lemma parse_without_file (format_help : ArgumentParser -> string)
    (sys_argv : list string) (out : string) :
  forallb (unrecognized the_parser) (List.tl sys_argv) = true ->
  parse_known_args format_help the_parser sys_argv None out
  = (Raised (SystemExit 2), out).
Proof.
  intros H.
  destruct (classify_unrecognized the_parser (List.tl sys_argv) [] H)
    as (items & Hi & Hm & Hc).
  rewrite app_nil_r in Hc. cbn [classify] in Hc.
  unfold parse_known_args, bind, lift. rewrite Hc.
  rewrite (consume_ignored format_help the_parser items [] _ _ Hi).
  reflexivity.
Qed.

End ArgparseFacts.

(** ** The exit status of the program *)

(** C9, refuted as stated. Run without any argument, the program exits with
    status 2 and prints nothing on standard output: [-file] is required. *)
Lemma no_argument_exit_status :
  exit_status (main (fun _ => "") ["Hash.py"] (fun _ => TextIO.Missing)) = 2
  /\ stdout (main (fun _ => "") ["Hash.py"] (fun _ => TextIO.Missing)) = "".
Proof. split; vm_compute; reflexivity. Qed.

Lemma main_eval (format_help : Argparse.ArgumentParser -> string)
    (sys_argv : list string) (fs : TextIO.filesystem) (out : string) :
  main format_help sys_argv fs out =
  match Argparse.parse_known_args format_help the_parser sys_argv None out with
  | (Returned (args, _), out') => hash fs args false out'
  | (Raised e, out') => (Raised e, out')
  end.
Proof.
  unfold main, parseargs, bind. fold the_parser.
  destruct (Argparse.parse_known_args format_help the_parser sys_argv None out)
    as [[[args extras] | e] out']; reflexivity.
Qed.

(** C9, as the code has it. Whenever argparse obtains the namespace, the
    program exits with status 0 after printing one line, the digest or
    [nocontent], whatever the state of the file named (missing, unreadable,
    undecodable).  [-file path] among arguments the parser does not recognize
    gives the namespace with that path: the other arguments are ignored.
    When no argument is recognized, the required [-file] is missing: the exit
    status is 2 and nothing is printed on standard output.  Besides [-file],
    [-h] and [--help] are recognized: the help message is printed and the
    exit status is 0. *)
Theorem main_exit_status (format_help : Argparse.ArgumentParser -> string)
    (sys_argv : list string) (fs : TextIO.filesystem) :
  (forall args out',
      parseargs format_help sys_argv None "" = (Returned args, out') ->
      out' = ""
      /\ exit_status (main format_help sys_argv fs) = 0
      /\ exists line,
           stdout (main format_help sys_argv fs) = (line ++ newline)%string
           /\ no_newline line
           /\ (line = "nocontent" \/ is_hex_digest line))
  /\ (forall prog before path after,
         sys_argv = prog :: (before ++ "-file" :: path :: after)%list ->
         forallb (unrecognized the_parser) before = true ->
         positional the_parser path = true ->
         forallb (unrecognized the_parser) after = true ->
         parseargs format_help sys_argv None "" = (Returned (file_args path), ""))
  /\ (forallb (unrecognized the_parser) (List.tl sys_argv) = true ->
      exit_status (main format_help sys_argv fs) = 2
      /\ stdout (main format_help sys_argv fs) = "")
  /\ (forall prog,
         sys_argv = [prog; "-h"] \/ sys_argv = [prog; "--help"] ->
         exit_status (main format_help sys_argv fs) = 0
         /\ stdout (main format_help sys_argv fs) = format_help the_parser).
Proof.
  split; [| split; [| split]].
  - intros args out' H.
    unfold parseargs, bind in H. fold the_parser in H.
    destruct (Argparse.parse_known_args format_help the_parser sys_argv None "")
      as [[[args0 extras] | e] out0] eqn:Hp; [| discriminate].
    injection H as -> ->.
    pose proof (ArgparseFacts.parse_known_args_out _ _ _ _ _ _ _ Hp) as ->.
    split; [reflexivity |].
    destruct (HashFacts.hash_prints_one_line fs args "")
      as (line & Hh & Hn & Hl).
    unfold exit_status, stdout. rewrite main_eval, Hp, Hh. cbn [fst snd].
    split; [reflexivity |]. exists line. auto.
  - intros prog before path after -> Hb Hpath Ha.
    unfold parseargs, bind. fold the_parser.
    now rewrite (ArgparseFacts.parse_file_among_unrecognized format_help prog
                   before path after "" Hb Hpath Ha).
  - intros H. unfold exit_status, stdout.
    rewrite main_eval, (ArgparseFacts.parse_without_file format_help _ "" H).
    split; reflexivity.
  - intros prog [-> | ->]; unfold exit_status, stdout; rewrite main_eval;
      split; reflexivity.
Qed.

(** The file named does not exist, and two arguments are unknown. *)
Lemma main_exit_status_witness :
  exit_status (main (fun _ => "usage")
                 ["Hash.py"; "-v"; "-file"; "missing.txt"; "extra"]
                 (fun _ => TextIO.Missing)) = 0
  /\ stdout (main (fun _ => "usage")
               ["Hash.py"; "-v"; "-file"; "missing.txt"; "extra"]
               (fun _ => TextIO.Missing)) = "nocontent" ++ newline.
Proof.
  pose proof (main_exit_status (fun _ => "usage")
                ["Hash.py"; "-v"; "-file"; "missing.txt"; "extra"]
                (fun _ => TextIO.Missing)) as (Ha & Hb & _).
  specialize (Hb "Hash.py" ["-v"] "missing.txt" ["extra"]
                eq_refl eq_refl eq_refl eq_refl).
  destruct (Ha _ _ Hb) as (_ & He & _).
  split; [exact He | reflexivity].
Defined.

(** * Further properties of [hash] *)

Module MoreFacts.

Import Utf8 TextIO.
Local Open Scope N_scope.

Ltac Zify.zify_post_hook ::= Z.to_euclidean_division_equations.

Lemma in_range_false_below (lo hi c : N) : c < lo -> in_range lo hi c = false.
Proof.
  intros H. unfold in_range. apply andb_false_iff. left.
  apply N.leb_gt. exact H.
Qed.

(** What cannot be encoded: the surrogates, and what no [str] holds. *)
Lemma encode_char_none_iff (c : N) :
  encode_char c = None <-> is_surrogate c = true \/ 0x110000 <= c.
Proof.
  unfold encode_char.
  destruct (N.ltb_spec c 0x80).
  { split; [discriminate |]. intros [H0 | H0]; [| lia].
    unfold is_surrogate in H0. rewrite in_range_false_below in H0;
      [discriminate | lia]. }
  destruct (N.ltb_spec c 0x800).
  { split; [discriminate |]. intros [H1 | H1]; [| lia].
    unfold is_surrogate in H1. rewrite in_range_false_below in H1;
      [discriminate | lia]. }
  destruct (N.ltb_spec c 0x10000).
  { destruct (is_surrogate c); split; auto; try discriminate.
    intros [H2 | H2]; [discriminate | lia]. }
  destruct (N.ltb_spec c 0x110000).
  { split; [discriminate |]. intros [H3 | H3]; [| lia].
    unfold is_surrogate, in_range in H3.
    apply andb_true_iff in H3 as [_ H3]. apply N.leb_le in H3. lia. }
  split; auto.
Qed.

Lemma encode_none_iff (s : text) :
  encode s = None <-> exists c, In c s /\ encode_char c = None.
Proof.
  induction s as [| c s IH]; simpl.
  - split; [discriminate | intros (c & [] & _)].
  - destruct (encode_char c) as [b |] eqn:Ec.
    + destruct (encode s) as [bs |].
      * split; [discriminate |].
        intros (d & [<- | Hd] & Hn); [congruence |].
        assert (Hs : @None (list byte) = None) by reflexivity.
        destruct IH as [_ IH]. discriminate IH. eauto.
      * split; [| reflexivity]. intros _.
        destruct IH as [IH _]. destruct (IH eq_refl) as (d & Hd & Hn).
        exists d. auto.
    + split; [| reflexivity]. intros _. exists c. auto.
Qed.

Lemma byte_of_N_eq (n : N) (b : byte) :
  n < 256 -> byte_of_N n = b -> Byte.to_N b = n.
Proof.
  intros Hn H. unfold byte_of_N in H.
  destruct (Byte.of_N n) as [b' |] eqn:E.
  - subst b'. now apply Byte.to_of_N.
  - apply Byte.of_N_None_iff in E. lia.
Qed.

(** Only the carriage return encodes to a byte 0x0D. *)
Lemma Some_eq {X : Type} (x y : X) : Some x = Some y -> x = y.
Proof. congruence. Qed.

Lemma encode_char_cr (c : N) (bs : list byte) :
  encode_char c = Some bs -> In x0d bs -> c = 13.
Proof.
  unfold encode_char.
  assert (Hb : forall n, n < 256 -> 0x80 <= n -> byte_of_N n <> x0d).
  { intros n Hn Hge Heq. apply byte_of_N_eq in Heq; [| exact Hn].
    change (Byte.to_N x0d) with 13 in Heq. lia. }
  destruct (N.ltb_spec c 0x80).
  { intros Henc Hin. apply Some_eq in Henc. subst bs. destruct Hin as [Hin | []].
    apply byte_of_N_eq in Hin; [| lia]. now rewrite <- Hin. }
  destruct (N.ltb_spec c 0x800).
  { intros Henc Hin. apply Some_eq in Henc. subst bs. exfalso.
    destruct Hin as [Hin | [Hin | []]]; revert Hin; apply Hb; lia. }
  destruct (N.ltb_spec c 0x10000).
  { destruct (is_surrogate c); [discriminate |].
    intros Henc Hin. apply Some_eq in Henc. subst bs. exfalso.
    destruct Hin as [Hin | [Hin | [Hin | []]]]; revert Hin; apply Hb; lia. }
  destruct (N.ltb_spec c 0x110000); [| discriminate].
  intros Henc Hin. apply Some_eq in Henc. subst bs. exfalso.
  destruct Hin as [Hin | [Hin | [Hin | [Hin | []]]]]; revert Hin; apply Hb; lia.
Qed.

Lemma encode_cr (s : text) (data : list byte) :
  encode s = Some data -> In x0d data -> In 13 s.
Proof.
  revert data. induction s as [| c s IH]; simpl; intros data H Hin.
  - injection H as <-. destruct Hin.
  - destruct (encode_char c) as [b |] eqn:Ec; [| discriminate].
    destruct (encode s) as [bs |]; [| discriminate].
    injection H as <-. apply in_app_or in Hin as [Hin | Hin].
    + left. eapply encode_char_cr; eassumption.
    + right. eapply IH; [reflexivity | exact Hin].
Qed.

(** The translation leaves no carriage return. *)
Lemma translate_cr_free (s : text) : ~ In CR (translate_newlines s).
Proof.
  induction s as [| x | x y l IHl IHyl] using TextIOFacts.list_pair_ind.
  - intros [].
  - cbn [translate_newlines]. destruct (N.eqb_spec x CR) as [-> | Hx].
    + intros [H | []]. discriminate.
    + intros [H | []]. congruence.
  - cbn [translate_newlines]. destruct (N.eqb_spec x CR) as [-> | Hx].
    + destruct (N.eqb y LF).
      * intros [H | H]; [discriminate | now apply IHl].
      * intros [H | H]; [discriminate | now apply IHyl].
    + intros [H | H]; [congruence | now apply IHyl].
Qed.

Lemma lines_of_cr_free (fs : filesystem) (args : Namespace) :
  ~ In CR (List.concat (lines_of fs args)).
Proof.
  unfold lines_of.
  destruct (lookup "file" args) as [[| path |] |]; try (intros []).
  destruct (fs path) as [| | | content]; try (intros []).
  destruct (decode content) as [s |]; [| intros []].
  rewrite TextIOFacts.concat_split_lines. apply translate_cr_free.
Qed.

Lemma empty_digest_is_sha3_of_nothing : sha3_256_hex [] = empty_digest.
Proof. vm_compute. reflexivity. Qed.

End MoreFacts.

(** X1. In [hash] the three-way test of the final [if] comes down to its
    last disjunct: the constant a7ffc6f8... is SHA3-256 of the empty input,
    so when no line was read the digest is that constant, and the digest is
    never [None]; the "no content" branch is taken exactly when the digest
    equals the constant. *)
Theorem test_reduces_to_digest (fs : TextIO.filesystem) (args : Namespace)
    (out : string) :
  exists lines digest,
    read_lines fs args out = (Returned lines, out)
    /\ hash_lines lines out = (Returned digest, out)
    /\ (lines = [] -> digest = Some empty_digest)
    /\ (no_content lines digest = true <-> digest = Some empty_digest).
Proof.
  exists (lines_of fs args), (digest_of (lines_of fs args)).
  split; [apply HashFacts.read_lines_eval |].
  split; [apply HashFacts.hash_lines_eval |].
  assert (Hnil : lines_of fs args = [] ->
                 digest_of (lines_of fs args) = Some empty_digest).
  { intros ->. unfold digest_of. cbn [List.concat Utf8.encode].
    now rewrite MoreFacts.empty_digest_is_sha3_of_nothing. }
  split; [exact Hnil |].
  rewrite HashFacts.no_content_true_iff.
  destruct (HashFacts.digest_of_lines_of fs args) as [data Hd].
  split; [| tauto].
  intros [H | [H | H]]; [auto | congruence | exact H].
Qed.

(** X2. For a file that exists and decodes as UTF-8, no line is read exactly
    when the file has zero bytes: a file of one newline, or of spaces only,
    has lines. *)
Theorem lines_empty_iff_file_empty (fs : TextIO.filesystem) (args : Namespace)
    (path : string) (content : list byte) (s : Utf8.text) (out : string) :
  lookup "file" args = Some (PyStr path) ->
  fs path = TextIO.Regular content ->
  Utf8.decode content = Some s ->
  (read_lines fs args out = (Returned [], out) <-> content = []).
Proof.
  intros Ha Hf Hd. rewrite HashFacts.read_lines_eval.
  rewrite (HashFacts.lines_of_file fs args path content Ha Hf), Hd.
  pose proof (lines_nil_iff content s Hd) as Hn.
  split.
  - intros H. injection H as H. rewrite H in Hn. cbn in Hn.
    destruct content; [reflexivity | discriminate].
  - intros ->. injection Hd as <-. reflexivity.
Qed.

(** A file of one newline is not empty. *)
Lemma lines_empty_iff_file_empty_witness :
  read_lines (one_file "f" [x0a]) (file_args "f") "" = (Returned [], "")
  <-> [x0a] = [].
Proof.
  exact (lines_empty_iff_file_empty (one_file "f" [x0a]) (file_args "f") "f"
           [x0a] [10%N] "" eq_refl eq_refl eq_refl).
Defined.

(** X3. The two modes agree: what print mode prints is what return mode
    returns, [nocontent] standing for [None]; a digest is never the text
    [nocontent], so the value returned can be read back from the line. *)
Theorem modes_agree (fs : TextIO.filesystem) (args : Namespace)
    (out : string) :
  exists v line,
    hash fs args true out = (Returned v, out)
    /\ hash fs args false out = (Returned None, (out ++ line ++ newline)%string)
    /\ ((v = None /\ line = "nocontent")
        \/ (v = Some line /\ is_hex_digest line /\ line <> "nocontent")).
Proof.
  rewrite !HashFacts.hash_eval, !HashFacts.report_eval.
  destruct (HashFacts.digest_of_lines_of fs args) as [data ->].
  destruct (no_content _ _).
  - exists None, "nocontent". repeat split. now left.
  - exists (Some (sha3_256_hex data)), (sha3_256_hex data).
    repeat split. right.
    pose proof (HashFacts.sha3_256_hex_is_hex data) as Hd.
    repeat split; try apply Hd.
    intros H. destruct Hd as [Hlen _]. rewrite H in Hlen. discriminate.
Qed.

(** X4. The second [try] of [hash] on any list of lines: the digest is
    SHA3-256 of the concatenation of the encoded lines, so it does not depend
    on where the text is cut into lines; and it is [None] exactly when some
    line holds a code point UTF-8 cannot encode (a surrogate). *)
Theorem digest_of_concatenation (lines lines' : list Utf8.text)
    (out : string) :
  List.concat lines = List.concat lines' ->
  hash_lines lines out = hash_lines lines' out
  /\ (forall data,
         Utf8.encode (List.concat lines) = Some data ->
         hash_lines lines out = (Returned (Some (sha3_256_hex data)), out))
  /\ (hash_lines lines out = (Returned None, out)
      <-> exists line c,
            In line lines /\ In c line
            /\ (Utf8.is_surrogate c = true \/ (0x110000 <= c)%N)).
Proof.
  intros H. rewrite !HashFacts.hash_lines_eval. unfold digest_of.
  split; [now rewrite H |].
  split; [intros data ->; reflexivity |].
  split.
  - intros Hn.
    destruct (Utf8.encode (List.concat lines)) eqn:He; [discriminate |].
    apply MoreFacts.encode_none_iff in He as (c & Hin & Hc).
    apply in_concat in Hin as (line & Hl & Hcl).
    exists line, c. repeat split; auto.
    now apply MoreFacts.encode_char_none_iff.
  - intros (line & c & Hl & Hcl & Hc).
    assert (He : Utf8.encode (List.concat lines) = None).
    { apply MoreFacts.encode_none_iff. exists c. split.
      - apply in_concat. eauto.
      - now apply MoreFacts.encode_char_none_iff. }
    now rewrite He.
Qed.

(** The text "ab\ncd" cut after the newline, and cut once more. *)
Lemma digest_of_concatenation_witness :
  hash_lines [[97; 98; 10]; [99; 100]]%N ""
  = hash_lines [[97]; [98; 10; 99]; [100]]%N "".
Proof.
  exact (proj1 (digest_of_concatenation [[97; 98; 10]; [99; 100]]%N
                  [[97]; [98; 10; 99]; [100]]%N "" eq_refl)).
Defined.

(** X5. No carriage return is ever hashed: of the lines [hash] reads, none
    encodes to data holding the byte 0x0D. *)
Theorem no_carriage_return_hashed (fs : TextIO.filesystem) (args : Namespace)
    (out : string) (lines : list Utf8.text) (line : Utf8.text)
    (data : list byte) :
  read_lines fs args out = (Returned lines, out) ->
  In line lines ->
  Utf8.encode line = Some data ->
  ~ In x0d data.
Proof.
  intros Hr Hl He Hin.
  rewrite HashFacts.read_lines_eval in Hr. injection Hr as <-.
  apply (MoreFacts.lines_of_cr_free fs args).
  apply in_concat. exists line. split; [exact Hl |].
  eapply MoreFacts.encode_cr; eassumption.
Qed.

(** The file "a\r\nb\r": its two lines are hashed as "a\n" and "b\n". *)
Lemma no_carriage_return_hashed_witness :
  read_lines (one_file "f" [x61; x0d; x0a; x62; x0d]) (file_args "f") ""
  = (Returned [[97; 10]; [98; 10]]%N, "")
  /\ ~ In x0d [x62; x0a].
Proof.
  split; [reflexivity |].
  exact (no_carriage_return_hashed
           (one_file "f" [x61; x0d; x0a; x62; x0d]) (file_args "f") ""
           [[97; 10]; [98; 10]]%N [98; 10]%N [x62; x0a]
           eq_refl (or_intror (or_introl eq_refl)) eq_refl).
Defined.


(** ** Line terminators of DOS *)

Module Unix2DosFacts.

Import Utf8 TextIO.
Local Open Scope N_scope.

Ltac Zify.zify_post_hook ::= Z.to_euclidean_division_equations.

Lemma eqb_x0a (b : byte) : Byte.eqb b x0a = true -> Byte.to_N b = 10.
Proof. intros H. apply Byte.byte_dec_bl in H. now subst b. Qed.

Lemma unix2dos_other (b : byte) (rest : list byte) :
  Byte.to_N b <> 10 -> unix2dos (b :: rest) = b :: unix2dos rest.
Proof.
  intros H. cbn [unix2dos].
  destruct (Byte.eqb b x0a) eqn:E; [| reflexivity].
  apply eqb_x0a in E. contradiction.
Qed.

Lemma translate_other (c : N) (s : text) :
  c <> CR -> translate_newlines (c :: s) = c :: translate_newlines s.
Proof.
  intros H. cbn [translate_newlines].
  destruct (N.eqb_spec c CR); [contradiction | reflexivity].
Qed.

Ltac not_lf := Utf8Facts.ranges; lia.

(** Decoding the DOS form gives a text whose translation is the text of the
    original, when the original holds no carriage return. *)
Lemma decode_unix2dos_bounded (n : nat) : forall bs s,
  (List.length bs <= n)%nat -> decode bs = Some s -> ~ In x0d bs ->
  exists s', decode (unix2dos bs) = Some s' /\ translate_newlines s' = s.
Proof.
  induction n as [| n IH]; intros bs s Hlen H Hcr.
  - destruct bs; [| simpl in Hlen; lia].
    inversion H. now exists [].
  - destruct bs as [| b0 r0].
    { inversion H. now exists []. }
    rewrite Utf8Facts.decode_cons in H. cbv zeta in H. simpl in Hlen.
    destruct (Byte.to_N b0 <? 0x80) eqn:E1.
    { apply Utf8Facts.option_map_cons_inv in H as (s0 & Hd & ->).
      destruct (IH r0 s0) as (s' & Hd' & Ht); [lia | exact Hd | |].
      { intros Hin. apply Hcr. now right. }
      cbn [unix2dos]. destruct (Byte.eqb b0 x0a) eqn:Elf.
      - apply Byte.byte_dec_bl in Elf. subst b0.
        exists (13 :: 10 :: s').
        split.
        + rewrite Utf8Facts.decode_cons. cbv zeta.
          change (Byte.to_N x0d <? 0x80) with true. cbv iota.
          rewrite Utf8Facts.decode_cons. cbv zeta.
          change (Byte.to_N x0a <? 0x80) with true. cbv iota.
          now rewrite Hd'.
        + cbn [translate_newlines]. change (N.eqb 13 CR) with true.
          change (N.eqb 10 LF) with true. cbv iota. now rewrite Ht.
      - exists (Byte.to_N b0 :: s'). split.
        + rewrite Utf8Facts.decode_cons. cbv zeta. rewrite E1.
          now rewrite Hd'.
        + rewrite translate_other; [now rewrite Ht |].
          intros Heq. apply Hcr. left.
          rewrite <- (Utf8Facts.byte_of_to_N b0), Heq. reflexivity. }
    destruct (in_range 0xC2 0xDF (Byte.to_N b0)) eqn:E2.
    { destruct r0 as [| b1 r1]; [discriminate |].
      destruct (continuation (Byte.to_N b1)) eqn:E3; [| discriminate].
      apply Utf8Facts.option_map_cons_inv in H as (s0 & Hd & ->).
      destruct (IH r1 s0) as (s' & Hd' & Ht);
        [simpl in Hlen; lia | exact Hd | |].
      { intros Hin. apply Hcr. right. now right. }
      rewrite !unix2dos_other by not_lf.
      eexists. split.
      - rewrite Utf8Facts.decode_cons. cbv zeta. rewrite E1, E2, E3.
        rewrite Hd'. reflexivity.
      - rewrite translate_other; [now rewrite Ht |].
        unfold CR. Utf8Facts.ranges. lia. }
    destruct (in_range 0xE0 0xEF (Byte.to_N b0)) eqn:E3.
    { destruct r0 as [| b1 [| b2 r2]]; try discriminate.
      destruct (in_range (second_lo (Byte.to_N b0))
                  (second_hi (Byte.to_N b0)) (Byte.to_N b1)) eqn:E4;
        [| discriminate].
      destruct (continuation (Byte.to_N b2)) eqn:E5; [| discriminate].
      apply Utf8Facts.option_map_cons_inv in H as (s0 & Hd & ->).
      destruct (IH r2 s0) as (s' & Hd' & Ht);
        [simpl in Hlen; lia | exact Hd | |].
      { intros Hin. apply Hcr. right. right. now right. }
      assert (Hb1 : 0x80 <= Byte.to_N b1).
      { Utf8Facts.ranges. Utf8Facts.lead_cases (Byte.to_N b0); lia. }
      rewrite !unix2dos_other by (try not_lf; lia).
      eexists. split.
      - rewrite Utf8Facts.decode_cons. cbv zeta. rewrite E1, E2, E3, E4, E5.
        cbn [andb]. rewrite Hd'. reflexivity.
      - rewrite translate_other; [now rewrite Ht |].
        unfold CR. Utf8Facts.ranges.
        Utf8Facts.lead_cases (Byte.to_N b0); lia. }
    destruct (in_range 0xF0 0xF4 (Byte.to_N b0)) eqn:E4; [| discriminate].
    destruct r0 as [| b1 [| b2 [| b3 r3]]]; try discriminate.
    destruct (in_range (second_lo (Byte.to_N b0))
                (second_hi (Byte.to_N b0)) (Byte.to_N b1)) eqn:E5;
      [| discriminate].
    destruct (continuation (Byte.to_N b2)) eqn:E6; [| discriminate].
    destruct (continuation (Byte.to_N b3)) eqn:E7; [| discriminate].
    apply Utf8Facts.option_map_cons_inv in H as (s0 & Hd & ->).
    destruct (IH r3 s0) as (s' & Hd' & Ht);
      [simpl in Hlen; lia | exact Hd | |].
    { intros Hin. apply Hcr. right. right. right. now right. }
    assert (Hb1 : 0x80 <= Byte.to_N b1).
    { Utf8Facts.ranges. Utf8Facts.lead_cases (Byte.to_N b0); lia. }
    rewrite !unix2dos_other by (try not_lf; lia).
    eexists. split.
    + rewrite Utf8Facts.decode_cons. cbv zeta.
      rewrite E1, E2, E3, E4, E5, E6, E7.
      cbn [andb]. rewrite Hd'. reflexivity.
    + rewrite translate_other; [now rewrite Ht |].
      unfold CR. Utf8Facts.ranges.
        Utf8Facts.lead_cases (Byte.to_N b0); lia.
Qed.

Lemma decode_unix2dos (bs : list byte) (s : text) :
  decode bs = Some s -> ~ In x0d bs ->
  exists s', decode (unix2dos bs) = Some s' /\ translate_newlines s' = s.
Proof. apply (decode_unix2dos_bounded (List.length bs)). apply le_n. Qed.

End Unix2DosFacts.

(** X6. Converting a file from Unix to DOS line terminators does not change
    what [hash] gives: for a file that is valid UTF-8 and holds no carriage
    return, the run over the file with a carriage return put before every
    line feed has the same outcome. *)
Theorem dos_line_endings_same_digest (fs1 fs2 : TextIO.filesystem)
    (args1 args2 : Namespace) (path1 path2 : string) (content : list byte)
    (s : Utf8.text) (shouldReturn : bool) (out : string) :
  lookup "file" args1 = Some (PyStr path1) ->
  lookup "file" args2 = Some (PyStr path2) ->
  fs1 path1 = TextIO.Regular content ->
  fs2 path2 = TextIO.Regular (unix2dos content) ->
  Utf8.decode content = Some s ->
  ~ In x0d content ->
  hash fs1 args1 shouldReturn out = hash fs2 args2 shouldReturn out.
Proof.
  intros Ha1 Ha2 Hf1 Hf2 Hd Hcr.
  destruct (Unix2DosFacts.decode_unix2dos content s Hd Hcr) as (s' & Hd' & Ht).
  rewrite !HashFacts.hash_eval.
  rewrite (HashFacts.lines_of_file fs1 args1 path1 content Ha1 Hf1), Hd.
  rewrite (HashFacts.lines_of_file fs2 args2 path2 _ Ha2 Hf2), Hd', Ht.
  rewrite (TextIOFacts.translate_no_cr s); [reflexivity |].
  intros Hin. apply Hcr.
  eapply Utf8Facts.decode_carriage_return; eassumption.
Qed.

(** The file "a\nb\n" and the file "a\r\nb\r\n". *)
Lemma dos_line_endings_same_digest_witness :
  hash (one_file "unix.txt" [x61; x0a; x62; x0a]) (file_args "unix.txt")
    true ""
  = hash (one_file "dos.txt" (unix2dos [x61; x0a; x62; x0a]))
      (file_args "dos.txt") true "".
Proof.
  refine (dos_line_endings_same_digest
            (one_file "unix.txt" [x61; x0a; x62; x0a])
            (one_file "dos.txt" (unix2dos [x61; x0a; x62; x0a]))
            (file_args "unix.txt") (file_args "dos.txt")
            "unix.txt" "dos.txt" [x61; x0a; x62; x0a] [97; 10; 98; 10]%N
            true "" eq_refl eq_refl eq_refl eq_refl eq_refl _).
  intros [H | [H | [H | [H | []]]]]; discriminate.
Defined.


(** * Further properties of the command line *)

Module MoreArgparseFacts.

Import Argparse.

Lemma lookup_setattr_same (ns : Namespace) (k : string) (v : pyval) :
  lookup k (setattr ns k v) = Some v.
Proof.
  induction ns as [| [k' w] ns IH]; cbn [setattr lookup].
  - now rewrite String.eqb_refl.
  - destruct (String.eqb k' k) eqn:E; cbn [lookup]; rewrite E; auto.
Qed.

Lemma lookup_setattr_other (ns : Namespace) (k k' : string) (v : pyval) :
  k <> k' -> lookup k' (setattr ns k v) = lookup k' ns.
Proof.
  intros Hk. apply String.eqb_neq in Hk.
  induction ns as [| [k0 w] ns IH]; cbn [setattr lookup].
  - now rewrite Hk.
  - destruct (String.eqb k0 k) eqn:E; cbn [lookup].
    + apply String.eqb_eq in E. subst k0. now rewrite Hk.
    + destruct (String.eqb k0 k'); auto.
Qed.

Lemma ArgparseReturned {X : Type} (x y : X) :
  Returned x = Returned y -> x = y.
Proof. congruence. Qed.

Lemma action_eqb_eq (a b : Action) : action_eqb a b = true -> a = b.
Proof.
  destruct a as [| d r], b as [| d' r']; cbn; try discriminate; auto.
  intros H. apply andb_true_iff in H as [Hd Hr].
  apply String.eqb_eq in Hd. apply Bool.eqb_prop in Hr. congruence.
Qed.

Lemma get_values_stored (dest : string) (req : bool) (v : string) :
  stored_value (get_values (StoreAction dest req) [v]).
Proof.
  unfold get_values. cbn [remove_first].
  destruct (String.eqb v "--"); [now right | left; eauto].
Qed.

Lemma match_following_shape (action : Action)
    (rest : list (string * pattern))
    (tuples : list (Action * list string)) (consumed : bool) :
  match_following action rest = Some (tuples, consumed) ->
  Forall single_valued tuples.
Proof.
  unfold match_following. destruct (takes_value action) eqn:E.
  - destruct rest as [| [v [| t |]] rest']; try discriminate.
    intros H. injection H as <- _. repeat constructor.
    intros _. now exists v.
  - intros H. injection H as <- _. repeat constructor.
    intros H. cbn [fst] in H. congruence.
Qed.

Lemma match_explicit_shape (p : ArgumentParser) (e : string) :
  forall (action : Action) (os : string) (rest : list (string * pattern))
         (tuples : list (Action * list string)) (consumed : bool),
    match_explicit p action os e rest = Some (tuples, consumed) ->
    Forall single_valued tuples.
Proof.
  induction e as [| c tail IH]; intros action os rest tuples consumed H.
  - cbn [match_explicit] in H. destruct (takes_value action) eqn:E;
      [| discriminate].
    injection H as <- _. repeat constructor. intros _. now exists "".
  - cbn [match_explicit] in H. destruct (takes_value action) eqn:E.
    { injection H as <- _. repeat constructor. intros _. now eexists. }
    destruct (second_is_dash os); [discriminate |].
    destruct (lookup _ (option_string_actions p)) as [action' |];
      [| discriminate].
    assert (Hsub : forall r,
               match tail with
               | EmptyString => match_following action' rest
               | String _ _ =>
                   match_explicit p action' (String dash (String c "")) tail
                     rest
               end = Some r -> Forall single_valued (fst r)).
    { intros [tuples' consumed'] Hr. cbn [fst]. destruct tail.
      - eapply match_following_shape; eassumption.
      - eapply IH; eassumption. }
    destruct (match tail with
              | EmptyString => _
              | String _ _ => _
              end) as [[tuples' consumed'] |] eqn:Et; [| discriminate].
    injection H as <- _. constructor.
    + intros H. cbn [fst] in H. congruence.
    + apply (Hsub _ eq_refl).
Qed.

Section WithHelp.

Variable format_help : ArgumentParser -> string.
Variable p : ArgumentParser.

Lemma take_action_keeps (st st' : parse_state) (t : Action * list string)
    (out out' : string) :
  single_valued t -> values_kept st ->
  take_action format_help p st t out = (Returned st', out') ->
  values_kept st'.
Proof.
  destruct t as [[| dest req] args]; cbn -[get_values]; [discriminate |].
  intros Ht Hk H. apply (f_equal fst) in H. cbn [fst] in H.
  apply ArgparseReturned in H. subst st'.
  destruct (Ht eq_refl) as [v Hv]. cbn [snd] in Hv. subst args.
  intros dest' req' Hin. cbn [seen_actions namespace] in *.
  destruct (String.eqb_spec dest dest') as [<- | Hne].
  - rewrite lookup_setattr_same. eexists. split; [reflexivity |].
    apply get_values_stored.
  - rewrite lookup_setattr_other by assumption.
    destruct Hin as [Heq | Hin]; [congruence |]. eauto.
Qed.

Lemma for_each_take_keeps (tuples : list (Action * list string)) :
  forall (st st' : parse_state) (out out' : string),
    Forall single_valued tuples -> values_kept st ->
    for_each tuples st (take_action format_help p) out = (Returned st', out')
    -> values_kept st'.
Proof.
  induction tuples as [| t tuples IH]; intros st st' out out' Ht Hk H.
  - injection H as <- _. exact Hk.
  - cbn [for_each] in H. unfold bind in H.
    destruct (take_action format_help p st t out) as [[st1 | e] out1] eqn:E;
      [| discriminate].
    inversion Ht; subst.
    eapply IH; [eassumption | | eassumption].
    eapply take_action_keeps; eassumption.
Qed.

Lemma add_extra_keeps (st : parse_state) (arg : string) :
  values_kept st -> values_kept (add_extra st arg).
Proof. intros Hk dest req Hin. exact (Hk dest req Hin). Qed.

(** The invariant of the consuming loop. *)
Lemma consume_keeps (n : nat) :
  forall (items : list (string * pattern)) (st st' : parse_state)
         (out out' : string),
    (List.length items <= n)%nat -> values_kept st ->
    consume format_help p items st out = (Returned st', out') ->
    values_kept st'.
Proof.
  induction n as [| n IH]; intros items st st' out out' Hlen Hk H.
  - destruct items; [| simpl in Hlen; lia]. injection H as <- _. exact Hk.
  - destruct items as [| [arg pat] rest].
    { injection H as <- _. exact Hk. }
    simpl in Hlen.
    destruct pat as [| [[[action |] os] e] |]; cbn [consume] in H;
      try (eapply IH; [| | eassumption]; [lia | now apply add_extra_keeps]).
    destruct (match e with
              | Some e0 => match_explicit p action os e0 rest
              | None => match_following action rest
              end) as [[tuples consumed] |] eqn:Em; [| discriminate].
    assert (Hs : Forall single_valued tuples).
    { destruct e.
      - eapply match_explicit_shape; eassumption.
      - eapply match_following_shape; eassumption. }
    unfold bind in H.
    destruct (for_each tuples st (take_action format_help p) out)
      as [[st1 | e1] out1] eqn:E; [| discriminate].
    apply for_each_take_keeps in E; [| assumption | assumption].
    destruct rest as [| x rest']; [injection H as <- _; exact E |].
    simpl in Hlen.
    destruct consumed; (eapply IH; [| | eassumption]; [simpl; lia | exact E]).
Qed.

(** The help action ends the program with status 0, the help message
    written. *)
Lemma take_action_raises (st : parse_state) (t : Action * list string)
    (out out' : string) (e : exn) :
  take_action format_help p st t out = (Raised e, out') ->
  e = SystemExit 0 /\ out' = (out ++ format_help p)%string.
Proof.
  destruct t as [[| dest req] args]; cbn; [| discriminate].
  intros H. injection H as <- <-. auto.
Qed.

Lemma for_each_take_raises (tuples : list (Action * list string)) :
  forall (st : parse_state) (out out' : string) (e : exn),
    for_each tuples st (take_action format_help p) out = (Raised e, out')
    -> e = SystemExit 0 /\ out' = (out ++ format_help p)%string.
Proof.
  induction tuples as [| t tuples IH]; intros st out out' e H.
  - discriminate.
  - cbn [for_each] in H. unfold bind in H.
    destruct (take_action format_help p st t out) as [[st1 | e1] out1] eqn:E.
    + apply ArgparseFacts.take_action_out in E. subst out1. eauto.
    + injection H as <- <-. eapply take_action_raises; eassumption.
Qed.

Lemma consume_raises (n : nat) :
  forall (items : list (string * pattern)) (st : parse_state)
         (out out' : string) (e : exn),
    (List.length items <= n)%nat ->
    consume format_help p items st out = (Raised e, out') ->
    (e = SystemExit 2 /\ out' = out)
    \/ (e = SystemExit 0 /\ out' = (out ++ format_help p)%string).
Proof.
  induction n as [| n IH]; intros items st out out' e Hlen H.
  - destruct items; [discriminate | simpl in Hlen; lia].
  - destruct items as [| [arg pat] rest]; [discriminate |].
    simpl in Hlen.
    destruct pat as [| [[[action |] os] e0] |]; cbn [consume] in H;
      try (eapply IH; [| eassumption]; lia).
    destruct (match e0 with
              | Some e1 => match_explicit p action os e1 rest
              | None => match_following action rest
              end) as [[tuples consumed] |].
    2:{ injection H as <- <-. now left. }
    unfold bind in H.
    destruct (for_each tuples st (take_action format_help p) out)
      as [[st1 | e1] out1] eqn:E.
    + apply ArgparseFacts.for_each_take_out in E. subst out1.
      destruct rest as [| x rest']; [discriminate |].
      simpl in Hlen.
      destruct consumed; (eapply IH; [| eassumption]; simpl; lia).
    + injection H as <- <-. right.
      eapply for_each_take_raises; eassumption.
Qed.

End WithHelp.

(** The only error of the classification is argparse's own, status 2. *)
Lemma parse_optional_raises (p : ArgumentParser) (arg : string) (e : exn) :
  parse_optional p arg = Raised e -> e = SystemExit 2.
Proof.
  unfold parse_optional, error.
  repeat match goal with
         | |- context [match ?x with _ => _ end] => destruct x
         end; intros H; try discriminate; congruence.
Qed.

Lemma classify_raises (p : ArgumentParser) (l : list string) (e : exn) :
  classify p l = Raised e -> e = SystemExit 2.
Proof.
  induction l as [| a l IH]; cbn [classify]; [discriminate |].
  destruct (String.eqb a "--"); [discriminate |].
  destruct (parse_optional p a) as [t | e'] eqn:E.
  - destruct (classify p l); [discriminate |].
    intros H. injection H as <-. now apply IH.
  - intros H. injection H as <-. eapply parse_optional_raises; eassumption.
Qed.

Lemma parse_known_args_raises (format_help : ArgumentParser -> string)
    (p : ArgumentParser) (sys_argv : list string)
    (args : option (list string)) (out out' : string) (e : exn) :
  parse_known_args format_help p sys_argv args out = (Raised e, out') ->
  (e = SystemExit 2 /\ out' = out)
  \/ (e = SystemExit 0 /\ out' = (out ++ format_help p)%string).
Proof.
  unfold parse_known_args, bind, lift. intros H.
  destruct (classify p _) as [items | e1] eqn:Ec.
  2:{ injection H as <- <-. left. split; [| reflexivity].
      eapply classify_raises; eassumption. }
  destruct (consume format_help p items _ out) as [[st | e1] out1] eqn:E.
  - apply (ArgparseFacts.consume_out _ _ _ _ _ _ _ _ (le_n _)) in E.
    subst out1.
    destruct (existsb _ _); [| discriminate].
    injection H as <- <-. now left.
  - injection H as <- <-.
    eapply consume_raises; [apply le_n | eassumption].
Qed.

(** When parsing returns, every required store action has left a value. *)
Lemma parse_known_args_keeps (format_help : ArgumentParser -> string)
    (p : ArgumentParser) (sys_argv : list string)
    (args : option (list string)) (out out' : string)
    (r : Namespace * list string) (dest : string) :
  In (StoreAction dest true) (actions p) ->
  parse_known_args format_help p sys_argv args out = (Returned r, out') ->
  exists v, lookup dest (fst r) = Some v /\ stored_value v.
Proof.
  unfold parse_known_args, bind, lift. intros Hin H.
  destruct (classify p _) as [items | e1]; [| discriminate].
  destruct (consume format_help p items _ out) as [[st | e1] out1] eqn:E;
    [| discriminate].
  apply (consume_keeps _ _ _ _ _ _ _ _ (le_n _)) in E.
  2:{ intros d q []. }
  destruct (existsb _ (actions p)) eqn:Ex; [discriminate |].
  injection H as <- _. cbn [fst].
  assert (Hseen : existsb (action_eqb (StoreAction dest true))
                    (seen_actions st) = true).
  { destruct (existsb (action_eqb (StoreAction dest true)) (seen_actions st))
      eqn:Es; [reflexivity | exfalso].
    assert (Ht : existsb
                   (fun a => is_required a
                             && negb (existsb (action_eqb a) (seen_actions st)))
                   (actions p) = true).
    { apply existsb_exists. exists (StoreAction dest true).
      split; [exact Hin |]. cbn [is_required]. now rewrite Es. }
    congruence. }
  apply existsb_exists in Hseen as (a & Ha & Heq).
  apply action_eqb_eq in Heq. subst a. exact (E dest true Ha).
Qed.

End MoreArgparseFacts.

(** X7. When [parseargs] returns, it has written nothing and the namespace
    has the attribute [file], set by the option: a string, or the empty list
    (what [-file=--] leaves), never [None]. *)
Theorem parseargs_gives_file (format_help : Argparse.ArgumentParser -> string)
    (sys_argv : list string) (inargs : option (list string))
    (out out' : string) (args : Namespace) :
  parseargs format_help sys_argv inargs out = (Returned args, out') ->
  out' = out
  /\ exists v, lookup "file" args = Some v /\ stored_value v.
Proof.
  unfold parseargs, bind. fold the_parser. intros H.
  destruct (Argparse.parse_known_args format_help the_parser sys_argv inargs
              out) as [[[args0 extras] | e] out0] eqn:Hp; [| discriminate].
  injection H as -> ->.
  split; [eapply ArgparseFacts.parse_known_args_out; eassumption |].
  apply (MoreArgparseFacts.parse_known_args_keeps _ _ _ _ _ _ _ "file") in Hp.
  - exact Hp.
  - right. left. reflexivity.
Qed.

Lemma parseargs_gives_file_witness :
  "" = ""
  /\ exists v, lookup "file" [("file", PyList [])] = Some v /\ stored_value v.
Proof.
  exact (parseargs_gives_file (fun _ => "") ["Hash.py"; "-file=--"] None
           "" "" [("file", PyList [])] eq_refl).
Defined.

(** X8. The program ends in one of three ways, whatever its arguments and
    the file system: exit status 0 after one line on standard output, the
    digest or [nocontent]; exit status 0 after the help message; exit status
    2 with nothing on standard output.  No exception reaches the
    interpreter. *)
Theorem program_outcomes (format_help : Argparse.ArgumentParser -> string)
    (sys_argv : list string) (fs : TextIO.filesystem) :
  (exit_status (main format_help sys_argv fs) = 0
   /\ exists line,
        stdout (main format_help sys_argv fs) = (line ++ newline)%string
        /\ no_newline line
        /\ (line = "nocontent" \/ is_hex_digest line))
  \/ (exit_status (main format_help sys_argv fs) = 0
      /\ stdout (main format_help sys_argv fs) = format_help the_parser)
  \/ (exit_status (main format_help sys_argv fs) = 2
      /\ stdout (main format_help sys_argv fs) = "").
Proof.
  unfold exit_status, stdout. rewrite main_eval.
  destruct (Argparse.parse_known_args format_help the_parser sys_argv None "")
    as [[[args extras] | e] out'] eqn:Hp.
  - left. apply ArgparseFacts.parse_known_args_out in Hp. subst out'.
    destruct (HashFacts.hash_prints_one_line fs args "")
      as (line & Hh & Hn & Hl).
    rewrite Hh. cbn [fst snd]. split; [reflexivity |]. exists line. auto.
  - right.
    apply MoreArgparseFacts.parse_known_args_raises in Hp
      as [[-> ->] | [-> ->]]; cbn [fst snd]; auto.
Qed.

(** ** The forms of the option *)

Module OptionForms.

Import Argparse.

Lemma classify_file_value (path : string) (rest : list string) :
  positional the_parser path = true ->
  classify the_parser ("-file" :: path :: rest)
  = match classify the_parser rest with
    | Returned r => Returned (file_item :: (path, A) :: r)
    | Raised e => Raised e
    end.
Proof.
  intros Hp. unfold positional in Hp. apply andb_true_iff in Hp as [Hsep Hp].
  apply negb_true_iff in Hsep.
  destruct (parse_optional the_parser path) as [[t |] | e] eqn:Hpath;
    try discriminate.
  cbn [classify]. change (String.eqb "-file" "--") with false.
  change (parse_optional the_parser "-file")
    with (Returned (Some (Some (StoreAction "file" true), "-file",
                          @None string))).
  cbv iota. rewrite Hsep, Hpath.
  now destruct (classify the_parser rest).
Qed.

Lemma consume_file_value (format_help : ArgumentParser -> string)
    (path : string) (rest : list (string * pattern)) (st : parse_state)
    (out : string) :
  String.eqb path "--" = false ->
  consume format_help the_parser (file_item :: (path, A) :: rest) st out
  = consume format_help the_parser rest
      {| namespace := setattr (namespace st) "file" (PyStr path);
         seen_actions := StoreAction "file" true :: seen_actions st;
         extras := extras st |} out.
Proof.
  intros Hsep. unfold file_item.
  cbn [consume match_following takes_value for_each take_action bind ret
       get_values remove_first].
  rewrite Hsep. reflexivity.
Qed.

Lemma positional_not_separator (path : string) :
  positional the_parser path = true -> String.eqb path "--" = false.
Proof.
  unfold positional. intros H. apply andb_true_iff in H as [H _].
  now apply negb_true_iff.
Qed.

Lemma ignored_after_separator (rest : list string) :
  forallb ignored (map (fun a : string => (a, A)) rest) = true.
Proof. induction rest; [reflexivity | assumption]. Qed.

Lemma map_fst_after_separator (rest : list string) :
  map fst (map (fun a : string => (a, A)) rest) = rest.
Proof. induction rest as [| a rest IH]; cbn; [| rewrite IH]; reflexivity. Qed.

(** An option that takes a value takes its explicit argument whole. *)
Lemma match_explicit_value (p : ArgumentParser) (action : Action)
    (os e : string) (rest : list (string * pattern)) :
  takes_value action = true ->
  match_explicit p action os e rest = Some ([(action, [e])], false).
Proof. intros H. destruct e; cbn [match_explicit]; now rewrite H. Qed.

Lemma consume_all_ignored (format_help : ArgumentParser -> string)
    (p : ArgumentParser) (items : list (string * pattern))
    (st : parse_state) (out : string) :
  forallb ignored items = true ->
  consume format_help p items st out
  = (Returned {| namespace := namespace st;
                 seen_actions := seen_actions st;
                 extras := extras st ++ map fst items |}, out).
Proof.
  intros H.
  pose proof (ArgparseFacts.consume_ignored format_help p items [] st out H)
    as Hc.
  rewrite app_nil_r in Hc. exact Hc.
Qed.

End OptionForms.

(** X9. The form [-file=value]: the value is whatever follows the equals
    sign, also when it begins with a dash or holds further equals signs; the
    one exception is [-file=--], which leaves the empty list. *)
Theorem equals_form (format_help : Argparse.ArgumentParser -> string)
    (prog value : string) (out : string) :
  parseargs format_help [prog; "-file=" ++ value] None out
  = (Returned
       [("file", if String.eqb value "--" then PyList [] else PyStr value)],
     out).
Proof.
  unfold parseargs, bind. fold the_parser.
  unfold Argparse.parse_known_args, bind, lift. cbn [List.tl].
  assert (Hc : Argparse.classify the_parser ["-file=" ++ value]
               = Returned
                   [("-file=" ++ value,
                     Argparse.O (Some (Argparse.StoreAction "file" true),
                                 "-file", Some value))]).
  { reflexivity. }
  rewrite Hc. cbn [Argparse.consume].
  rewrite OptionForms.match_explicit_value by reflexivity.
  cbn [for_each Argparse.take_action bind ret Argparse.get_values
       Argparse.remove_first].
  destruct (String.eqb value "--"); reflexivity.
Qed.



(** X11. The separator [--] ends the options: after [-file path] everything
    from [--] on is ignored, whatever it is; and a [-file] that comes after
    [--] does not count, so that the required option is missing and argparse
    exits with status 2. *)
Theorem separator_ends_options
    (format_help : Argparse.ArgumentParser -> string)
    (prog path : string) (rest : list string) (out : string) :
  positional the_parser path = true ->
  parseargs format_help (prog :: "-file" :: path :: "--" :: rest) None out
  = (Returned (file_args path), out)
  /\ parseargs format_help (prog :: "--" :: rest) None out
     = (Raised (SystemExit 2), out).
Proof.
  intros Hp.
  pose proof (OptionForms.positional_not_separator path Hp) as Hsep.
  split.
  - unfold parseargs, bind. fold the_parser.
    unfold Argparse.parse_known_args, bind, lift. cbn [List.tl].
    rewrite (OptionForms.classify_file_value path _ Hp).
    cbn [Argparse.classify]. change (String.eqb "--" "--") with true.
    cbv iota.
    rewrite (OptionForms.consume_file_value format_help path _ _ _ Hsep).
    rewrite (OptionForms.consume_all_ignored format_help the_parser
               (("--", Argparse.Dash)
                :: map (fun a : string => (a, Argparse.A)) rest)).
    + reflexivity.
    + cbn [forallb]. apply OptionForms.ignored_after_separator.
  - unfold parseargs, bind. fold the_parser.
    unfold Argparse.parse_known_args, bind, lift. cbn [List.tl].
    cbn [Argparse.classify]. change (String.eqb "--" "--") with true.
    cbv iota.
    rewrite (OptionForms.consume_all_ignored format_help the_parser
               (("--", Argparse.Dash)
                :: map (fun a : string => (a, Argparse.A)) rest)).
    + reflexivity.
    + cbn [forallb]. apply OptionForms.ignored_after_separator.
Qed.

Lemma separator_ends_options_witness :
  parseargs (fun _ => "")
    ["Hash.py"; "-file"; "a.txt"; "--"; "-h"; "-file"; "b.txt"] None ""
  = (Returned (file_args "a.txt"), "")
  /\ parseargs (fun _ => "") ["Hash.py"; "--"; "-h"; "-file"; "b.txt"] None ""
     = (Raised (SystemExit 2), "").
Proof.
  exact (separator_ends_options (fun _ => "") "Hash.py" "a.txt"
           ["-h"; "-file"; "b.txt"] "" eq_refl).
Defined.

(** X12. When [-file] is given twice the second value is kept, also with
    unrecognized arguments between and after. *)
Theorem last_file_wins (format_help : Argparse.ArgumentParser -> string)
    (prog first second : string) (middle after : list string)
    (out : string) :
  positional the_parser first = true ->
  positional the_parser second = true ->
  forallb (unrecognized the_parser) middle = true ->
  forallb (unrecognized the_parser) after = true ->
  parseargs format_help
    (prog :: "-file" :: first :: middle ++ "-file" :: second :: after)%list
    None out
  = (Returned (file_args second), out).
Proof.
  intros H1 H2 Hm Ha.
  pose proof (OptionForms.positional_not_separator first H1) as Hs1.
  pose proof (OptionForms.positional_not_separator second H2) as Hs2.
  destruct (ArgparseFacts.classify_unrecognized the_parser middle
              ("-file" :: second :: after) Hm) as (im & Him & _ & Hcm).
  destruct (ArgparseFacts.classify_unrecognized the_parser after [] Ha)
    as (ia & Hia & _ & Hca).
  rewrite app_nil_r in Hca. cbn [Argparse.classify] in Hca.
  rewrite (OptionForms.classify_file_value second after H2), Hca in Hcm.
  unfold parseargs, bind. fold the_parser.
  unfold Argparse.parse_known_args, bind, lift. cbn [List.tl].
  rewrite (OptionForms.classify_file_value first _ H1), Hcm.
  rewrite (OptionForms.consume_file_value format_help first _ _ _ Hs1).
  rewrite (ArgparseFacts.consume_ignored format_help the_parser im _ _ _ Him).
  rewrite (OptionForms.consume_file_value format_help second _ _ _ Hs2).
  rewrite (ArgparseFacts.consume_ignored format_help the_parser ia [] _ _ Hia).
  reflexivity.
Qed.

Lemma last_file_wins_witness :
  parseargs (fun _ => "")
    ["Hash.py"; "-file"; "a.txt"; "-v"; "-file"; "b.txt"; "more"] None ""
  = (Returned (file_args "b.txt"), "").
Proof.
  exact (last_file_wins (fun _ => "") "Hash.py" "a.txt" "b.txt" ["-v"]
           ["more"] "" eq_refl eq_refl eq_refl eq_refl).
Defined.

(** X13. The plain use of the program: for a path that does not begin with
    a dash (the empty path too), [-file path] gives the namespace with that
    path, and the program exits with status 0 after printing one line. *)
Theorem plain_path_accepted (format_help : Argparse.ArgumentParser -> string)
    (prog path : string) (fs : TextIO.filesystem) :
  String.prefix "-" path = false ->
  parseargs format_help [prog; "-file"; path] None ""
  = (Returned (file_args path), "")
  /\ exit_status (main format_help [prog; "-file"; path] fs) = 0
  /\ exists line,
       stdout (main format_help [prog; "-file"; path] fs)
       = (line ++ newline)%string
       /\ (line = "nocontent" \/ is_hex_digest line).
Proof.
  intros Hplain.
  assert (Hp : positional the_parser path = true).
  { unfold positional. destruct path as [| c rest]; [reflexivity |].
    cbn [String.prefix] in Hplain.
    destruct (ascii_dec "-" c) as [<- | Hc].
    - destruct rest; discriminate.
    - assert (Hc' : Ascii.eqb c "-" = false).
      { apply Ascii.eqb_neq. intros ->. now apply Hc. }
      cbn [String.eqb Argparse.parse_optional]. unfold Argparse.dash.
      rewrite !Hc'. reflexivity. }
  pose proof (ArgparseFacts.parse_file_among_unrecognized format_help prog
                [] path [] "" eq_refl Hp eq_refl) as Hparse.
  cbn [app] in Hparse.
  split.
  - unfold parseargs, bind. fold the_parser. now rewrite Hparse.
  - destruct (HashFacts.hash_prints_one_line fs (file_args path) "")
      as (line & Hh & _ & Hl).
    unfold exit_status, stdout. rewrite main_eval, Hparse, Hh. cbn [fst snd].
    split; [reflexivity |]. exists line. auto.
Qed.

Lemma plain_path_accepted_witness :
  parseargs (fun _ => "") ["Hash.py"; "-file"; "src/Program.cs"] None ""
  = (Returned (file_args "src/Program.cs"), "").
Proof.
  exact (proj1 (plain_path_accepted (fun _ => "") "Hash.py" "src/Program.cs"
                  (fun _ => TextIO.Missing) eq_refl)).
Defined.

(** X14. The option can be abbreviated: [-f], [-fi] and [-fil] followed by
    a value are taken for [-file]. *)
Theorem abbreviations_accepted
    (format_help : Argparse.ArgumentParser -> string)
    (prog path : string) (out : string) :
  positional the_parser path = true ->
  parseargs format_help [prog; "-f"; path] None out
  = (Returned (file_args path), out)
  /\ parseargs format_help [prog; "-fi"; path] None out
     = (Returned (file_args path), out)
  /\ parseargs format_help [prog; "-fil"; path] None out
     = (Returned (file_args path), out).
Proof.
  intros Hp.
  pose proof (OptionForms.positional_not_separator path Hp) as Hsep.
  unfold positional in Hp. rewrite Hsep in Hp. cbn [negb andb] in Hp.
  destruct (Argparse.parse_optional the_parser path) as [[t |] | e] eqn:Hpath;
    try discriminate.
  assert (Hgen : forall abbreviation,
             String.eqb abbreviation "--" = false ->
             Argparse.parse_optional the_parser abbreviation
             = Returned (Some (Some (Argparse.StoreAction "file" true),
                               "-file", None)) ->
             parseargs format_help [prog; abbreviation; path] None out
             = (Returned (file_args path), out)).
  { intros abbreviation Ha Hopt.
    unfold parseargs, bind. fold the_parser.
    unfold Argparse.parse_known_args, bind, lift. cbn [List.tl].
    cbn [Argparse.classify]. rewrite Ha, Hopt, Hsep, Hpath.
    cbn [Argparse.consume Argparse.match_following Argparse.takes_value
         for_each Argparse.take_action bind ret Argparse.get_values
         Argparse.remove_first].
    rewrite Hsep. reflexivity. }
  repeat split; apply Hgen; reflexivity.
Qed.

Lemma abbreviations_accepted_witness :
  parseargs (fun _ => "") ["Hash.py"; "-f"; "a.txt"] None ""
  = (Returned (file_args "a.txt"), "").
Proof.
  exact (proj1 (abbreviations_accepted (fun _ => "") "Hash.py" "a.txt" ""
                  eq_refl)).
Defined.
